(** * Shazam-Tool: the segmentation / recognition / aggregation pipeline

    A shallow embedding of [shazam.py].  Python values are modelled as
    follows:
    - [int] as [Z]; [str] as [string]; [list] as [list]; [set] as [gset];
    - [None] results as [option];
    - exceptions and the mutable process state (scratch directory, the
      objects [unique_tracks] and [seen_tracks], everything the program
      appends, logs or waits for) with a state-and-exception monad [M];
    - the collaborators of the program (the recognition service, the
      audio decoder, the file system) as parameters of a [Section].

    [logger.debug] calls are left out; every [logger.info],
    [logger.error] and [print] call is an event of the trace.

    Limits of the model:
    - an audio buffer is the stretch of the recording it holds (where
      it starts and how long it lasts), not its samples;
    - a write to the output file succeeds or raises [OSError]; a text
      that cannot be encoded as UTF-8 (a file name with surrogate
      escapes) is not modelled;
    - only exceptions that derive from [Exception] are modelled;
    - [int] reads plain decimal numerals only, which is all that the
      names of the segment files need. *)

From Stdlib Require Import ZArith QArith Ascii String.
From Stdlib Require Import DecimalString DecimalPos DecimalZ.
From stdpp Require Import base tactics option list sorting gmap strings.

#[local] Set Warnings "-clear-no-such-hyp".
#[local] Open Scope string_scope.
#[local] Open Scope list_scope.
#[local] Open Scope Z_scope.

(** ** Python built-ins used by the program *)

Module Py.

(** [range(start, stop, step)] for a positive [step]: yields [i] while
    [i < stop].  The fuel [stop - start] is enough for every positive
    step (lemma [range_unfold]). *)
Fixpoint range_from (fuel : nat) (i stop step : Z) : list Z :=
  match fuel with
  | O => []
  | S fuel' =>
      if i <? stop then i :: range_from fuel' (i + step) stop step else []
  end.

Definition range (start stop step : Z) : list Z :=
  range_from (Z.to_nat (stop - start)) start stop step.

(** [enumerate(l, start)] *)
Fixpoint enumerate {A} (l : list A) (start : Z) : list (Z * A) :=
  match l with
  | [] => []
  | x :: l' => (start, x) :: enumerate l' (start + 1)
  end.

(** [str(n)] and [int(s)] on decimal numerals.  [int] returns [None]
    where Python raises [ValueError]; only plain numerals (an optional
    minus sign and ASCII digits) are recognised. *)
Definition str (n : Z) : string := NilZero.string_of_int (Z.to_int n).

Definition int (s : string) : option Z :=
  Z.of_int <$> NilZero.int_of_string s.

(** [s.rfind(c)] for a one-character [c]: index of the last occurrence. *)
Fixpoint rfind (c : ascii) (s : string) : option nat :=
  match s with
  | EmptyString => None
  | String a s' =>
      match rfind c s' with
      | Some i => Some (S i)
      | None => if Ascii.eqb a c then Some O else None
      end
  end.

(** [s[:n]] and [s[n:]] *)
Fixpoint str_take (n : nat) (s : string) : string :=
  match n, s with
  | S n', String a s' => String a (str_take n' s')
  | _, _ => EmptyString
  end.

Fixpoint str_drop (n : nat) (s : string) : string :=
  match n, s with
  | S n', String _ s' => str_drop n' s'
  | _, _ => s
  end.

Fixpoint str_exists (f : ascii -> bool) (s : string) : bool :=
  match s with
  | EmptyString => false
  | String a s' => f a || str_exists f s'
  end.

(** [sub in s] on strings *)
Fixpoint contains (sub s : string) : bool :=
  String.prefix sub s ||
  match s with
  | EmptyString => false
  | String _ s' => contains sub s'
  end.

(** [os.path.splitext] (posixpath): the extension starts at the last
    dot of the last path component, leading dots of the component
    excepted. *)
Definition splitext (p : string) : string * string :=
  let sepIndex := rfind "/" p in
  let filenameIndex := match sepIndex with Some i => S i | None => O end in
  match rfind "." p with
  | Some dotIndex =>
      if (filenameIndex <=? dotIndex)%nat &&
         str_exists (fun a => negb (Ascii.eqb a "."))
           (str_take (dotIndex - filenameIndex) (str_drop filenameIndex p))
      then (str_take dotIndex p, str_drop dotIndex p)
      else (p, "")
  | None => (p, "")
  end.

(** [os.path.basename] and [os.path.join] (posixpath, two components) *)
Definition basename (p : string) : string :=
  match rfind "/" p with
  | Some i => str_drop (S i) p
  | None => p
  end.

Definition ends_with (c : ascii) (s : string) : bool :=
  match rfind c s with
  | Some i => (S i =? String.length s)%nat
  | None => false
  end.

Definition path_join (a b : string) : string :=
  if String.prefix "/" b then b
  else if (a =? "")%string || ends_with "/" a then (a ++ b)%string
  else (a ++ "/" ++ b)%string.

(** [sorted(l, key=...)]: a stable sort on the keys.  The keys are
    computed first; the sort itself is on the decorated list. *)
Fixpoint insert_by_key {A} (k : Z) (x : A) (l : list (Z * A)) : list (Z * A) :=
  match l with
  | [] => [(k, x)]
  | (k', y) :: l' =>
      if k <=? k' then (k, x) :: (k', y) :: l'
      else (k', y) :: insert_by_key k x l'
  end.

Definition sort_decorated {A} (l : list (Z * A)) : list (Z * A) :=
  foldr (fun kx acc => insert_by_key kx.1 kx.2 acc) [] l.

(** [None] when the key function raises on some element. *)
Definition sorted {A} (key : A -> option Z) (l : list A) : option (list A) :=
  decorated ← mapM (fun x => k ← key x; Some (k, x)) l;
  Some (sort_decorated decorated).*2.

End Py.

(** ** Windower *)

(** Duration of each segment in milliseconds (1 minute) *)
Definition SEGMENT_LENGTH : Z := 60 * 1000.

(** A [pydub.AudioSegment], seen as the stretch of the decoded
    recording that it holds: [offset] is where the stretch starts in
    the recording and [len] how long it lasts, both in milliseconds.
    [len(audio)] is the duration; the slice [audio[start:stop]] clamps
    both ends to the duration and holds what lies between them. *)
Record AudioSegment := { offset : Z; len : Z }.

Definition slice (audio : AudioSegment) (start stop : Z) : AudioSegment :=
  let start := Z.min start (len audio) in
  let stop := Z.min stop (len audio) in
  {| offset := offset audio + start; len := stop - start |}.

(** [[audio[i:i + SEGMENT_LENGTH] for i in range(0, len(audio), SEGMENT_LENGTH)]] *)
Definition split_segments (audio : AudioSegment) : list AudioSegment :=
  map (fun i => slice audio i (i + SEGMENT_LENGTH))
      (Py.range 0 (len audio) SEGMENT_LENGTH).

(** [f"{idx}.mp3"] *)
Definition segment_file_name (idx : Z) : string := (Py.str idx ++ ".mp3")%string.

(** The numbered segments, as the export loop enumerates them. *)
Definition numbered_segments (audio : AudioSegment) : list (Z * AudioSegment) :=
  Py.enumerate (split_segments audio) 1.


(** ** Process state, exceptions and effects *)

(** The exception classes the program meets; all derive from
    [Exception]. *)
Inductive Exn := OSError | ValueError | KeyError | TypeError | OtherException.

Inductive Outcome (A : Type) :=
| Ok (a : A)
| Raise (e : Exn).
Arguments Ok {A} a.
Arguments Raise {A} e.

(** The payload of [shazam.recognize]: a dictionary that may hold a
    ['track'] entry, itself a dictionary that may hold ['title'] and
    ['subtitle']. *)
Record Track := { title : option string; subtitle : option string }.
Record Data := { track : option Track }.

Inductive Provider := SoundCloud | YouTube.

(** What [urlparse] gives: [parsed.scheme] and [parsed.hostname]. *)
Record ParseResult := { scheme : string; hostname : option string }.

(** Messages of [logger.info], [logger.error] and [print]. *)
Inductive Msg :=
| MsgStartingDownload
| MsgSoundCloudDetected
| MsgYouTubeDetected
| MsgUnsupportedUrl
| MsgProcessingFile (audio_file : string)
| MsgProcessingFileOf (file_index total_files : Z) (audio_file : string)
| MsgSegmenting
| MsgRecognizing
| MsgProgress (idx total_segments : Z) (track_name : string)
| MsgSegmentError (file_name : string)
| MsgSegmentingFailed (audio_file : string)
| MsgHeaderError (audio_file : string)
| MsgEmptyLineError (audio_file : string)
| MsgWriteError (filename : string)
| MsgTracklist (n : Z)
| MsgTrack (i : Z) (track : string)
| MsgTracklistEnd
| MsgProcessed (audio_file : string)
| MsgAllProcessed
| MsgResultsSaved (output_filename : string).

(** What the program does to the outside, in the order it does it: a
    request to the recognition service, a wait ([asyncio.sleep]), a text
    appended to a file (a successful [open(filename, "a")] and
    [f.write(text)]), a download handed to the media-retrieval
    collaborator, a line logged or printed. *)
Inductive Event :=
| Recognize (file_path : string)
| Sleep (seconds : Q)
| Append (filename text : string)
| Download (provider : Provider) (url : string)
| LogInfo (m : Msg)
| LogError (m : Msg)
| Stdout (m : Msg).

(** The state of the process: the number of requests made to the
    recognition service and of attempts to open an output file (they
    index the answers of the collaborators), the files of the current
    temporary directory (each with the segment encoded in it, or [None]
    for a file that was created and left empty), the two objects
    [unique_tracks] and [seen_tracks] of the file being processed, and
    the events so far. *)
Record World := {
  calls : nat;
  opens : nat;
  scratch : list (string * option AudioSegment);
  unique_tracks : list string;
  seen_tracks : gset string;
  trace : list Event
}.

(** The collaborators.  [recognize n path] is the outcome of the [n]-th
    request to the recognition service (counted from 0) when it is made
    for [path]; [open_fails n filename] tells whether the [n]-th attempt
    to append to an output file raises [OSError]; [from_file] is the
    decoder ([None]: it raises); [export_fails idx] tells whether the
    export of segment [idx] raises, and [export_leaves_file idx] whether
    its output file exists by then (pydub opens the output file before
    it runs the encoder, so that a failed encoding leaves an empty file
    behind, whereas a failure to open the file leaves nothing);
    [listdir] is the order in which the operating system lists a
    directory; [tmp_dir] the name of the temporary directory. *)
Record Collaborators := {
  urlparse : string -> ParseResult;
  download : Provider -> string -> option string;
  recognize : nat -> string -> Outcome Data;
  open_fails : nat -> string -> bool;
  from_file : string -> option AudioSegment;
  export_fails : Z -> bool;
  export_leaves_file : Z -> bool;
  listdir : list string -> list string;
  tmp_dir : string
}.

Definition M (A : Type) : Type := World -> Outcome A * World.

Definition ret {A} (a : A) : M A := fun w => (Ok a, w).

Definition bind {A B} (m : M A) (f : A -> M B) : M B :=
  fun w =>
    match m w with
    | (Ok a, w') => f a w'
    | (Raise e, w') => (Raise e, w')
    end.

Definition raise {A} (e : Exn) : M A := fun w => (Raise e, w).

(** [try: m except <classes>: h] *)
Definition try_except {A} (catches : Exn -> bool) (m : M A) (h : M A) : M A :=
  fun w =>
    match m w with
    | (Raise e, w') => if catches e then h w' else (Raise e, w')
    | r => r
    end.

Definition Exception (e : Exn) : bool := true.
Definition is_OSError (e : Exn) : bool :=
  match e with OSError => true | _ => false end.

Declare Scope monad_scope.
Delimit Scope monad_scope with M.
Notation "x <- m ;; k" := (bind m (fun x => k))
  (at level 100, m at next level, right associativity) : monad_scope.
Notation "m ;; k" := (bind m (fun _ => k))
  (at level 100, right associativity) : monad_scope.
#[local] Open Scope monad_scope.

(** How a loop body ends: it falls through or [continue]s to the next
    iteration, or [return]s from the function. *)
Inductive Ctl (A : Type) :=
| Next
| Return (a : A).
Arguments Next {A}.
Arguments Return {A} a.

Definition emit (e : Event) : M unit :=
  fun w => (Ok tt, {| calls := calls w; opens := opens w; scratch := scratch w;
                      unique_tracks := unique_tracks w;
                      seen_tracks := seen_tracks w;
                      trace := trace w ++ [e] |}).

Definition log_info (m : Msg) : M unit := emit (LogInfo m).
Definition log_error (m : Msg) : M unit := emit (LogError m).
Definition print (m : Msg) : M unit := emit (Stdout m).
Definition sleep (seconds : Q) : M unit := emit (Sleep seconds).

(** [d[key]]: [KeyError] when the entry is missing. *)
Definition getitem {A} (entry : option A) : M A :=
  match entry with
  | Some v => ret v
  | None => raise KeyError
  end.

(** The string ["\n"] *)
Definition newline : string := String "010"%char EmptyString.

(** Directory for downloaded files *)
Definition DOWNLOADS_DIR : string := "downloads".

Definition ALLOWED_DOMAINS : gset string :=
  {[ "youtube.com"; "www.youtube.com"; "m.youtube.com";
     "youtu.be";
     "soundcloud.com"; "www.soundcloud.com"; "m.soundcloud.com" ]}.

(** ** The program *)

Section Pipeline.

Variable env : Collaborators.

(** [validate_url]: scheme and domain against the allowlist. *)
Definition validate_url (url : string) : Outcome string :=
  let parsed := urlparse env url in
  if negb (bool_decide (scheme parsed ∈ ["http"; "https"])) then Raise ValueError
  else
    match hostname parsed with
    | Some h =>
        if negb (bool_decide (h ∈ ALLOWED_DOMAINS)) then Raise ValueError else Ok url
    | None => Raise ValueError
    end.

Definition lift {A} (r : Outcome A) : M A := fun w => (r, w).

(** [download_soundcloud] and [download_youtube] hand the URL to the
    media-retrieval collaborator and return its title, or [None]. *)
Definition download_soundcloud (url : string) : M (option string) :=
  emit (Download SoundCloud url);; ret (download env SoundCloud url).

Definition download_youtube (url : string) : M (option string) :=
  emit (Download YouTube url);; ret (download env YouTube url).

Definition download_from_url (url : string) : M (option string) :=
  log_info MsgStartingDownload;;
  _ <- lift (validate_url url);;
  let parsed := urlparse env url in
  match hostname parsed with
  | None => raise TypeError
  | Some hostname =>
      if Py.contains "soundcloud.com" hostname then
        log_info MsgSoundCloudDetected;;
        download_soundcloud url
      else if Py.contains "youtube.com" hostname || (hostname =? "youtu.be")%string then
        log_info MsgYouTubeDetected;;
        download_youtube url
      else
        log_error MsgUnsupportedUrl;;
        ret None
  end.

(** [open(filename, "a")] followed by [f.write(text)] *)
Definition append_text (filename text : string) : M unit :=
  fun w =>
    let w' := {| calls := calls w; opens := S (opens w); scratch := scratch w;
                 unique_tracks := unique_tracks w;
                 seen_tracks := seen_tracks w; trace := trace w |} in
    if open_fails env (opens w) filename then (Raise OSError, w')
    else emit (Append filename text) w'.

(** Appends text string to specified file if data != 'Not found'. *)
Definition write_to_file (data filename : string) : M unit :=
  if negb (data =? "Not found")%string then
    try_except is_OSError
      (append_text filename (data ++ newline))
      (print (MsgWriteError filename))
  else ret tt.

(** A file created in the output directory. *)
Definition create_file (file_name : string) (content : option AudioSegment)
    (w : World) : World :=
  {| calls := calls w; opens := opens w;
     scratch := scratch w ++ [(file_name, content)];
     unique_tracks := unique_tracks w;
     seen_tracks := seen_tracks w; trace := trace w |}.

(** [seg.export(segment_file_path, format="mp3")], run by the pool:
    [true] when the export returns, [false] when it raises.  The output
    file is opened first and filled once the encoder has succeeded. *)
Definition export (idx : Z) (seg : AudioSegment) : M bool :=
  fun w =>
    if export_fails env idx then
      (Ok false,
       if export_leaves_file env idx
       then create_file (segment_file_name idx) None w else w)
    else (Ok true, create_file (segment_file_name idx) (Some seg) w).

Fixpoint export_all (segments : list (Z * AudioSegment)) : M (list bool) :=
  match segments with
  | [] => ret []
  | (idx, seg) :: rest =>
      future <- export idx seg;;
      futures <- export_all rest;;
      ret (future :: futures)
  end.

(** [AudioSegment.from_file(audio_file, format="mp3")] *)
Definition audio_from_file (audio_file : string) : M AudioSegment :=
  match from_file env audio_file with
  | Some audio => ret audio
  | None => raise OtherException
  end.

(** [segment_audio], writing into the scratch directory
    ([output_directory] names it).  Every export is submitted and runs
    to its end before the pool is left; [future.result()] then raises
    for the first one that failed. *)
Definition segment_audio (audio_file output_directory : string) : M unit :=
  try_except Exception
    (audio <- audio_from_file audio_file;;
     let segments := split_segments audio in
     futures <- export_all (Py.enumerate segments 1);;
     if forallb id futures then ret tt else raise OtherException)
    (log_error (MsgSegmentingFailed audio_file)).

(** [shazam.recognize(file_path)] *)
Definition shazam_recognize (file_path : string) : M Data :=
  fun w =>
    (recognize env (calls w) file_path,
     {| calls := S (calls w); opens := opens w; scratch := scratch w;
        unique_tracks := unique_tracks w; seen_tracks := seen_tracks w;
        trace := trace w ++ [Recognize file_path] |}).

(** One iteration of the retry loop of [get_name]. *)
Definition get_name_attempt (file_path : string) (max_retries attempt : Z)
  : M (Ctl string) :=
  try_except Exception
    (data <- shazam_recognize file_path;;
     match track data with
     | None =>
         if attempt <? max_retries - 1 then sleep 2;; ret Next
         else ret (Return "Not found")
     | Some t =>
         title <- getitem (title t);;
         subtitle <- getitem (subtitle t);;
         let result := (subtitle ++ " - " ++ title)%string in
         ret (Return result)
     end)
    (if attempt <? max_retries - 1 then sleep 2;; ret Next
     else ret (Return "Not found")).

Fixpoint get_name_loop (file_path : string) (max_retries : Z)
    (attempts : list Z) : M (option string) :=
  match attempts with
  | [] => ret None
  | attempt :: rest =>
      c <- get_name_attempt file_path max_retries attempt;;
      match c with
      | Next => get_name_loop file_path max_retries rest
      | Return result => ret (Some result)
      end
  end.

(** Uses Shazam to recognize the song with retry logic and error
    handling.  [None] is what Python returns when the loop ends without
    a [return]. *)
Definition get_name (file_path : string) (max_retries : Z) : M (option string) :=
  get_name_loop file_path max_retries (Py.range 0 max_retries 1).

(** [seen_tracks.add(track_name); unique_tracks.append(track_name)] *)
Definition add_track (track_name : string) : M unit :=
  fun w => (Ok tt,
            {| calls := calls w; opens := opens w; scratch := scratch w;
               unique_tracks := unique_tracks w ++ [track_name];
               seen_tracks := seen_tracks w ∪ {[track_name]};
               trace := trace w |}).

Definition is_seen (track_name : string) : M bool :=
  fun w => (Ok (bool_decide (track_name ∈ seen_tracks w)), w).

(** The body of the loop of [_recognize_segments].  [get_name] is called
    with its default [max_retries = 3], for which it returns a string
    (the [None] case, rendered as Python prints it, never arises). *)
Definition recognize_segment (tmp_dir : string) (total_segments : Z)
    (output_filename : string) (idx : Z) (file_name : string) : M unit :=
  let segment_path := Py.path_join tmp_dir file_name in
  continue <-
    try_except Exception
      (name <- get_name segment_path 3;;
       let track_name := default "None" name in
       log_info (MsgProgress idx total_segments track_name);;
       seen <- is_seen track_name;;
       (if negb (track_name =? "Not found")%string && negb seen then
          add_track track_name;;
          write_to_file track_name output_filename
        else ret tt);;
       ret false)
      (log_error (MsgSegmentError file_name);; ret true);;
  if continue : bool then ret tt
  else if idx <? total_segments then sleep (1 # 2) else ret tt.

Fixpoint recognize_loop (tmp_dir : string) (total_segments : Z)
    (output_filename : string) (files : list (Z * string)) : M unit :=
  match files with
  | [] => ret tt
  | (idx, file_name) :: rest =>
      recognize_segment tmp_dir total_segments output_filename idx file_name;;
      recognize_loop tmp_dir total_segments output_filename rest
  end.

(** [_recognize_segments]; the objects [unique_tracks] and [seen_tracks]
    it mutates are those of the world. *)
Definition _recognize_segments (tmp_dir : string) (tmp_files : list string)
    (total_segments : Z) (output_filename : string) : M unit :=
  recognize_loop tmp_dir total_segments output_filename (Py.enumerate tmp_files 1).

(** [with tempfile.TemporaryDirectory(...) as tmp_dir]: the directory is
    empty on entry and removed on every exit path. *)
Definition clear_scratch : M unit :=
  fun w => (Ok tt,
            {| calls := calls w; opens := opens w; scratch := [];
               unique_tracks := unique_tracks w;
               seen_tracks := seen_tracks w; trace := trace w |}).

Definition with_temporary_directory {A} (body : string -> M A) : M A :=
  fun w =>
    match (clear_scratch;; body (tmp_dir env)) w with
    | (r, w') => (r, snd (clear_scratch w'))
    end.

Definition os_listdir : M (list string) :=
  fun w => (Ok (listdir env (scratch w).*1), w).

(** [int(os.path.splitext(x)[0])] *)
Definition segment_index (x : string) : option Z := Py.int (Py.splitext x).1.

(** [unique_tracks = []; seen_tracks = set()] *)
Definition new_track_set : M unit :=
  fun w => (Ok tt,
            {| calls := calls w; opens := opens w; scratch := scratch w;
               unique_tracks := []; seen_tracks := ∅; trace := trace w |}).

Definition get_unique_tracks : M (list string) :=
  fun w => (Ok (unique_tracks w), w).

Fixpoint log_tracks (tracks : list (Z * string)) : M unit :=
  match tracks with
  | [] => ret tt
  | (i, track) :: rest => log_info (MsgTrack i track);; log_tracks rest
  end.

Definition process_audio_file (audio_file output_filename : string)
    (file_index total_files : Z) : M unit :=
  (if 2 <? total_files
   then log_info (MsgProcessingFileOf file_index total_files audio_file)
   else log_info (MsgProcessingFile audio_file));;
  new_track_set;;
  header_written <-
    try_except is_OSError
      (append_text output_filename
         ("===== " ++ Py.basename audio_file ++ " ======" ++ newline);;
       ret true)
      (log_error (MsgHeaderError audio_file);; ret false);;
  if negb header_written then ret tt
  else
    with_temporary_directory (fun tmp_dir =>
      log_info MsgSegmenting;;
      segment_audio audio_file tmp_dir;;
      log_info MsgRecognizing;;
      names <- os_listdir;;
      tmp_files <- match Py.sorted segment_index names with
                   | Some l => ret l
                   | None => raise ValueError
                   end;;
      let total_segments := Z.of_nat (length tmp_files) in
      _recognize_segments tmp_dir tmp_files total_segments output_filename);;
    try_except is_OSError
      (append_text output_filename newline)
      (log_error (MsgEmptyLineError audio_file));;
    unique_tracks <- get_unique_tracks;;
    (if bool_decide (unique_tracks = []) then ret tt
     else
       log_info (MsgTracklist (Z.of_nat (length unique_tracks)));;
       log_tracks (Py.enumerate unique_tracks 1);;
       log_info MsgTracklistEnd);;
    log_info (MsgProcessed audio_file).

(** The driver loop of [process_downloads] and of the [download]
    command of [main]. *)
Fixpoint process_each (files : list (Z * string)) (output_filename : string)
    (total_files : Z) : M unit :=
  match files with
  | [] => ret tt
  | (idx, file_name) :: rest =>
      let full_path := Py.path_join DOWNLOADS_DIR file_name in
      process_audio_file full_path output_filename idx total_files;;
      process_each rest output_filename total_files
  end.

Definition process_mp3_files (mp3_files : list string) (output_filename : string)
  : M unit :=
  let total_files := Z.of_nat (length mp3_files) in
  process_each (Py.enumerate mp3_files 1) output_filename total_files;;
  log_info MsgAllProcessed;;
  log_info (MsgResultsSaved output_filename).

End Pipeline.

(** ** Sample collaborators *)

Module Demo.

Definition w0 : World :=
  {| calls := 0; opens := 0; scratch := []; unique_tracks := [];
     seen_tracks := ∅; trace := [] |}.

Definition joni_blue : Data :=
  {| track := Some {| title := Some "Blue"; subtitle := Some "Joni" |} |}.

Definition a_b : Data :=
  {| track := Some {| title := Some "B"; subtitle := Some "A" |} |}.

(** A service whose first request raises, whose second one finds no
    track, and which recognizes the same song from then on. *)
Definition flaky (n : nat) (file_path : string) : Outcome Data :=
  match n with
  | 0%nat => Raise OtherException
  | 1%nat => Ok {| track := None |}
  | _ => Ok joni_blue
  end.

(** A 150000 ms recording, a directory listed in reverse order. *)
Definition env_flaky : Collaborators :=
  {| urlparse := fun _ => {| scheme := "https"; hostname := Some "youtu.be" |};
     download := fun _ _ => Some "set";
     recognize := flaky;
     open_fails := fun _ _ => false;
     from_file := fun _ => Some {| offset := 0; len := 150000 |};
     export_fails := fun _ => false;
     export_leaves_file := fun _ => true;
     listdir := reverse;
     tmp_dir := "/tmp/shazam_0" |}.

(** The same, with a service that is down. *)
Definition env_down : Collaborators :=
  {| urlparse := urlparse env_flaky;
     download := download env_flaky;
     recognize := fun _ _ => Raise OtherException;
     open_fails := open_fails env_flaky;
     from_file := from_file env_flaky;
     export_fails := export_fails env_flaky;
     export_leaves_file := export_leaves_file env_flaky;
     listdir := listdir env_flaky;
     tmp_dir := tmp_dir env_flaky |}.

(** The same, with a service that recognizes the same track on every
    request. *)
Definition env_ab : Collaborators :=
  {| urlparse := urlparse env_flaky;
     download := download env_flaky;
     recognize := fun _ _ => Ok a_b;
     open_fails := open_fails env_flaky;
     from_file := from_file env_flaky;
     export_fails := export_fails env_flaky;
     export_leaves_file := export_leaves_file env_flaky;
     listdir := listdir env_flaky;
     tmp_dir := tmp_dir env_flaky |}.

(** The same as [env_ab], with a recording that cannot be decoded. *)
Definition env_corrupt : Collaborators :=
  {| urlparse := urlparse env_ab;
     download := download env_ab;
     recognize := recognize env_ab;
     open_fails := open_fails env_ab;
     from_file := fun _ => None;
     export_fails := export_fails env_ab;
     export_leaves_file := export_leaves_file env_ab;
     listdir := listdir env_ab;
     tmp_dir := tmp_dir env_ab |}.


End Demo.

(** ** Vocabulary of the statements *)

(** The world after [k] more recognition requests and the events
    [evs]. *)
Definition advance (k : nat) (evs : list Event) (w : World) : World :=
  {| calls := calls w + k; opens := opens w; scratch := scratch w;
     unique_tracks := unique_tracks w; seen_tracks := seen_tracks w;
     trace := trace w ++ evs |}.

(** What [k] consecutive attempts on [file_path] leave in the trace:
    [k] requests, with a wait of 2 between two consecutive ones. *)
Fixpoint attempts_trace (file_path : string) (k : nat) : list Event :=
  match k with
  | O => []
  | S O => [Recognize file_path]
  | S k' => Recognize file_path :: Sleep 2 :: attempts_trace file_path k'
  end.

(** The canonical track string of a payload that carries a track with
    its title and subtitle. *)
Definition recognized (o : Outcome Data) : option string :=
  match o with
  | Ok {| track := Some {| title := Some t; subtitle := Some a |} |} =>
      Some (a ++ " - " ++ t)%string
  | _ => None
  end.

(** A request fails: it raises, or its payload has no track. *)
Definition fails (o : Outcome Data) : Prop :=
  match o with
  | Raise _ => True
  | Ok data => track data = None
  end.

(** A request succeeds with the canonical string [s]. *)
Definition succeeds_with (o : Outcome Data) (s : string) : Prop :=
  exists t a,
    o = Ok {| track := Some {| title := Some t; subtitle := Some a |} |} /\
    s = (a ++ " - " ++ t)%string.

Definition is_canonical (s : string) : Prop :=
  exists t a, s = (a ++ " - " ++ t)%string.

(** The requests and the waits of a trace, in order. *)
Definition requests (evs : list Event) : list string :=
  omap (fun e => match e with Recognize p => Some p | _ => None end) evs.

Definition waits (evs : list Event) : list Q :=
  omap (fun e => match e with Sleep d => Some d | _ => None end) evs.

(** The message that announces the branch taken for a provider. *)
Definition detected (provider : Provider) : Msg :=
  match provider with
  | SoundCloud => MsgSoundCloudDetected
  | YouTube => MsgYouTubeDetected
  end.

(** The track names of the progress lines of a trace, the pairs of a
    file name and a text appended to it, and the numbered entries of
    the logged summaries, in order. *)
Definition progress (evs : list Event) : list string :=
  omap (fun e => match e with
                 | LogInfo (MsgProgress _ _ s) => Some s
                 | _ => None
                 end) evs.

Definition appends (evs : list Event) : list (string * string) :=
  omap (fun e => match e with Append f t => Some (f, t) | _ => None end) evs.

Definition tracklist (evs : list Event) : list (Z * string) :=
  omap (fun e => match e with
                 | LogInfo (MsgTrack i t) => Some (i, t)
                 | _ => None
                 end) evs.

(** The recognized tracks among the results of the segments. *)
Definition found (results : list string) : list string :=
  filter (fun s => s ≠ "Not found") results.

(** Every string once, at the place of its first occurrence. *)
Fixpoint first_seen (l : list string) : list string :=
  match l with
  | [] => []
  | x :: l' => x :: filter (fun y => y ≠ x) (first_seen l')
  end.

(** The line of a track and the header line of a file. *)
Definition track_line (track : string) : string := track ++ newline.

Definition header_line (audio_file : string) : string :=
  "===== " ++ Py.basename audio_file ++ " ======" ++ newline.

(** One segment: [j] requests for [file_path] gave the result [s].
    [is_new] tells whether the result enters the track set,
    [segment_events] what the segment adds to the trace, and
    [after_segment] is the world after it. *)
Definition is_new (s : string) (w : World) : bool :=
  negb (s =? "Not found")%string && negb (bool_decide (s ∈ seen_tracks w)).

Definition segment_events (env : Collaborators) (output_filename : string)
    (idx total_segments : Z) (file_path : string) (j : nat) (s : string)
    (w : World) : list Event :=
  attempts_trace file_path j
  ++ [LogInfo (MsgProgress idx total_segments s)]
  ++ (if is_new s w
      then [if open_fails env (opens w) output_filename
            then Stdout (MsgWriteError output_filename)
            else Append output_filename (track_line s)]
      else [])
  ++ (if idx <? total_segments then [Sleep (1 # 2)] else []).

Definition after_segment (env : Collaborators) (output_filename : string)
    (idx total_segments : Z) (file_path : string) (j : nat) (s : string)
    (w : World) : World :=
  {| calls := calls w + j;
     opens := if is_new s w then S (opens w) else opens w;
     scratch := scratch w;
     unique_tracks := unique_tracks w ++ (if is_new s w then [s] else []);
     seen_tracks := if is_new s w then seen_tracks w ∪ {[s]} else seen_tracks w;
     trace := trace w ++ segment_events env output_filename idx total_segments
                           file_path j s w |}.

(** The service gives the canonical string [s] on some request. *)
Definition answers (env : Collaborators) (s : string) : Prop :=
  exists (n : nat) (file_path : string),
    recognized (recognize env n file_path) = Some s.

(** What the answers of the service make of up to [n] requests for
    [file_path], the first of which is request number [c]: the number
    of requests made, and the canonical string of the first request
    that yields a track with title and subtitle, or the sentinel when
    none does. *)
Fixpoint first_answer (env : Collaborators) (file_path : string) (c n : nat)
  : nat * string :=
  match n with
  | O => (O, "Not found")
  | S n' =>
      match recognized (recognize env c file_path) with
      | Some s => (1%nat, s)
      | None =>
          match n' with
          | O => (1%nat, "Not found")
          | S _ =>
              let r := first_answer env file_path (S c) n' in (S r.1, r.2)
          end
      end
  end.

(** The same for the files of a list, one after the other, with three
    requests allowed for each: the requests of a file start where those
    of the file before it ended. *)
Fixpoint segment_results (env : Collaborators) (tmp_dir : string)
    (files : list string) (c : nat) : list (nat * string) :=
  match files with
  | [] => []
  | file_name :: rest =>
      let r := first_answer env (Py.path_join tmp_dir file_name) c 3 in
      r :: segment_results env tmp_dir rest (c + r.1)
  end.

(** A run of the sequencer over numbered segment files, one
    [after_segment] step per file; the number of requests and the
    result of a file are those that the answers of the service give,
    starting from the request count of the world. *)
Inductive segments_run (env : Collaborators) (tmp_dir : string)
    (total_segments : Z) (output_filename : string)
  : list (Z * string) -> World -> World -> Prop :=
| run_done (w : World) :
    segments_run env tmp_dir total_segments output_filename [] w w
| run_segment (idx : Z) (file_name : string) (rest : list (Z * string))
    (j : nat) (s : string) (w w' : World) :
    (0 < j <= 3)%nat ->
    s = "Not found" \/ answers env s ->
    first_answer env (Py.path_join tmp_dir file_name) (calls w) 3 = (j, s) ->
    segments_run env tmp_dir total_segments output_filename rest
      (after_segment env output_filename idx total_segments
         (Py.path_join tmp_dir file_name) j s w) w' ->
    segments_run env tmp_dir total_segments output_filename
      ((idx, file_name) :: rest) w w'.

(** The characters of a decimal numeral. *)
Definition is_numeral_char (a : ascii) : bool :=
  match a with
  | "0" | "1" | "2" | "3" | "4" | "5" | "6" | "7" | "8" | "9" | "-" => true
  | _ => false
  end%char.

(** The first line logged for a file. *)
Definition processing_msg (audio_file : string) (file_index total_files : Z)
  : Msg :=
  if 2 <? total_files then MsgProcessingFileOf file_index total_files audio_file
  else MsgProcessingFile audio_file.

(** What the export of a numbered segment leaves in the directory:
    the encoded segment, an empty file, or nothing. *)
Definition left_by_export (env : Collaborators) (s : Z * AudioSegment)
  : option (Z * option AudioSegment) :=
  if export_fails env s.1 then
    if export_leaves_file env s.1 then Some (s.1, None) else None
  else Some (s.1, Some s.2).

(** The numbered files that the exports of a file leave behind (none
    when the file cannot be decoded), and whether [segment_audio] meets
    a failure. *)
Definition materialized (env : Collaborators) (audio_file : string)
  : list (Z * option AudioSegment) :=
  match from_file env audio_file with
  | Some audio => omap (left_by_export env) (numbered_segments audio)
  | None => []
  end.

Definition segmenting_failed (env : Collaborators) (audio_file : string) : bool :=
  match from_file env audio_file with
  | Some audio =>
      negb (forallb (fun s => negb (export_fails env s.1))
              (numbered_segments audio))
  | None => true
  end.

Definition segment_file (s : Z * option AudioSegment)
  : string * option AudioSegment :=
  (segment_file_name s.1, s.2).

(** The names of the segment files of a file, in the order of their
    indices. *)
Definition segment_files (env : Collaborators) (audio_file : string)
  : list string :=
  map segment_file_name (materialized env audio_file).*1.

(** The logged summary of a track list. *)
Definition summary_events (tracks : list string) : list Event :=
  if bool_decide (tracks = []) then []
  else LogInfo (MsgTracklist (Z.of_nat (length tracks)))
       :: map (fun t => LogInfo (MsgTrack t.1 t.2)) (Py.enumerate tracks 1)
       ++ [LogInfo MsgTracklistEnd].

(** What [process_audio_file] adds to the trace before the sequencer
    starts (the header is written) and after it has left the world
    [w3]. *)
Definition prologue_events (env : Collaborators)
    (audio_file output_filename : string) (file_index total_files : Z)
  : list Event :=
  [LogInfo (processing_msg audio_file file_index total_files);
   Append output_filename (header_line audio_file);
   LogInfo MsgSegmenting]
  ++ (if segmenting_failed env audio_file
      then [LogError (MsgSegmentingFailed audio_file)] else [])
  ++ [LogInfo MsgRecognizing].

Definition epilogue_events (env : Collaborators)
    (audio_file output_filename : string) (w3 : World) : list Event :=
  [if open_fails env (opens w3) output_filename
   then LogError (MsgEmptyLineError audio_file)
   else Append output_filename newline]
  ++ summary_events (unique_tracks w3)
  ++ [LogInfo (MsgProcessed audio_file)].

(** The world of [process_audio_file] when the sequencer starts, and
    the one it ends with. *)
Definition before_recognition (env : Collaborators)
    (audio_file output_filename : string) (file_index total_files : Z)
    (w : World) : World :=
  {| calls := calls w; opens := S (opens w);
     scratch := map segment_file (materialized env audio_file);
     unique_tracks := []; seen_tracks := ∅;
     trace := trace w ++ prologue_events env audio_file output_filename
                           file_index total_files |}.

Definition after_recognition (env : Collaborators)
    (audio_file output_filename : string) (w3 : World) : World :=
  {| calls := calls w3; opens := S (opens w3); scratch := [];
     unique_tracks := unique_tracks w3; seen_tracks := seen_tracks w3;
     trace := trace w3 ++ epilogue_events env audio_file output_filename w3 |}.

(** The world of [process_audio_file] when the header cannot be
    written. *)
Definition header_failed (audio_file : string) (file_index total_files : Z)
    (w : World) : World :=
  {| calls := calls w; opens := S (opens w); scratch := scratch w;
     unique_tracks := []; seen_tracks := ∅;
     trace := trace w
              ++ [LogInfo (processing_msg audio_file file_index total_files);
                  LogError (MsgHeaderError audio_file)] |}.

(** The section of a file in the output artifact, as the pairs of the
    output file name and a text to append: the header line, a line per
    track, the blank separator line. *)
Definition file_section (output_filename audio_file : string)
    (tracks : list string) : list (string * string) :=
  [(output_filename, header_line audio_file)]
  ++ map (fun t => (output_filename, track_line t)) tracks
  ++ [(output_filename, newline)].

(** A trace whose last event is [e]: nothing was done after it. *)
Definition aborted_at (e : Event) (evs : list Event) : Prop :=
  last evs = Some e.

(** The order of the decorated list of [sorted]. *)
Definition by_key {A} : relation (Z * A) := fun p q => p.1 <= q.1.

(** [ceil(a / b)] on integers *)
Definition ceil_div (a b : Z) : Z := (a + b - 1) / b.

(** ** Clean-up of a directory *)

Module Cleanup.

(** What [os.path.islink] and [os.path.isfile] tell of a directory
    entry: a symbolic link, a regular file, or anything else (a
    directory, a socket, ...). *)
Inductive Kind := RegularFile | Symlink | Other.

Record DirEntry := { name : string; kind : Kind }.

(** A successful [os.remove], and the lines of [logger.warning] and
    [logger.error]. *)
Inductive FsEvent :=
| Remove (file_path : string)
| WarnSymlink (file_path : string)
| ErrorDeleting (file_path : string).

(** The directory, the events so far and the local [file_count]. *)
Record FsState := {
  entries : list DirEntry;
  fs_trace : list FsEvent;
  file_count : Z
}.

(** [s.endswith(suffix)] *)
Definition endswith (s suffix : string) : bool :=
  (String.length suffix <=? String.length s)%nat &&
  (Py.str_drop (String.length s - String.length suffix) s =? suffix)%string.

Section RemoveFiles.

(** [makedirs_fails]: [os.makedirs(dir_path, exist_ok=True)] raises
    [OSError]; [realpath] is [os.path.realpath]; [remove_fails]:
    [os.remove(file_path)] raises [OSError]. *)
Variable makedirs_fails : string -> bool.
Variable realpath : string -> string.
Variable remove_fails : string -> bool.

(** The body of the loop of [remove_files], for one name of the
    listing. *)
Definition remove_file (real_dir extension : string) (e : DirEntry)
    (st : FsState) : FsState :=
  let file_name := name e in
  let file_path := Py.path_join real_dir file_name in
  if negb (endswith file_name extension) then st
  else
    match kind e with
    | Symlink =>
        {| entries := entries st;
           fs_trace := fs_trace st ++ [WarnSymlink file_path];
           file_count := file_count st |}
    | Other => st
    | RegularFile =>
        if remove_fails file_path then
          {| entries := entries st;
             fs_trace := fs_trace st ++ [ErrorDeleting file_path];
             file_count := file_count st |}
        else
          {| entries := filter (fun e' => name e' ≠ file_name) (entries st);
             fs_trace := fs_trace st ++ [Remove file_path];
             file_count := file_count st + 1 |}
    end.

Fixpoint remove_each (real_dir extension : string) (listing : list DirEntry)
    (st : FsState) : FsState :=
  match listing with
  | [] => st
  | e :: rest =>
      remove_each real_dir extension rest (remove_file real_dir extension e st)
  end.

(** Removes files with the given extension in the directory.  Skips
    symlinks.  [dir] is the content of the directory once it exists. *)
Definition remove_files (directory extension : string) (dir : list DirEntry)
  : Outcome FsState :=
  if makedirs_fails directory then Raise OSError
  else
    let real_dir := realpath directory in
    Ok (remove_each real_dir extension dir
          {| entries := dir; fs_trace := []; file_count := 0 |}).

(** What the loop does to one entry: whether the entry is removed,
    and the line or removal it leaves in the trace. *)
Definition removable (real_dir extension : string) (e : DirEntry) : bool :=
  endswith (name e) extension &&
  match kind e with
  | RegularFile => negb (remove_fails (Py.path_join real_dir (name e)))
  | _ => false
  end.

Definition entry_event (real_dir extension : string) (e : DirEntry)
  : option FsEvent :=
  let file_path := Py.path_join real_dir (name e) in
  if endswith (name e) extension then
    match kind e with
    | Symlink => Some (WarnSymlink file_path)
    | Other => None
    | RegularFile =>
        Some (if remove_fails file_path then ErrorDeleting file_path
              else Remove file_path)
    end
  else None.

End RemoveFiles.

(** A sample directory. *)
Definition sample_dir : list DirEntry :=
  [ {| name := "a.mp3"; kind := RegularFile |};
    {| name := "link.mp3"; kind := Symlink |};
    {| name := "notes.txt"; kind := RegularFile |};
    {| name := "locked.mp3"; kind := RegularFile |};
    {| name := "album.mp3"; kind := Other |};
    {| name := "b.mp3"; kind := RegularFile |} ].

End Cleanup.

(** ** Further vocabulary *)

(** The total duration of a list of segments. *)
Definition total_duration (segments : list AudioSegment) : Z :=
  foldr (fun seg acc => len seg + acc) 0 segments.

(** Segments that lie end to end between two instants of the
    recording: the first starts at [from], each of the others starts
    where the one before it ends, the last ends at [to], and none is
    empty. *)
Fixpoint covers (segments : list AudioSegment) (from to : Z) : Prop :=
  match segments with
  | [] => from = to
  | seg :: rest =>
      offset seg = from /\ 0 < len seg /\ covers rest (from + len seg) to
  end.

(** A payload with a track that lacks its title or its subtitle. *)
Definition malformed (o : Outcome Data) : Prop :=
  exists t, o = Ok {| track := Some t |} /\ (title t = None \/ subtitle t = None).

(** The progress lines of a trace with their numbering, the pacing
    delays among its waits, and the messages that open the processing
    of a file, in order. *)
Definition progress_lines (evs : list Event) : list (Z * Z * string) :=
  omap (fun e => match e with
                 | LogInfo (MsgProgress idx total s) => Some (idx, total, s)
                 | _ => None
                 end) evs.

Definition pacing (evs : list Event) : list Q :=
  omap (fun e => match e with
                 | Sleep d => if Qeq_bool d (1 # 2) then Some d else None
                 | _ => None
                 end) evs.

Definition started (evs : list Event) : list Msg :=
  omap (fun e => match e with
                 | LogInfo (MsgProcessingFile f) => Some (MsgProcessingFile f)
                 | LogInfo (MsgProcessingFileOf i n f) =>
                     Some (MsgProcessingFileOf i n f)
                 | _ => None
                 end) evs.

(** The events of one segment file, [p = (idx, file_name)], in a run
    over [total_segments] files: between one and three requests for the
    file, with a wait of 2 between two consecutive ones; then the
    progress line [idx/total_segments]; then at most one event, the
    line of the track appended or the failure of that write printed;
    and last the pacing delay, unless [idx] is [total_segments] or
    more. *)
Definition segment_block (tmp_dir : string) (total_segments : Z)
    (output_filename : string) (p : Z * string) (block : list Event) : Prop :=
  exists (j : nat) (s : string) (written : list Event),
    (1 <= j <= 3)%nat /\
    (length written <= 1)%nat /\
    Forall (fun e => e = Append output_filename (track_line s) \/
                     e = Stdout (MsgWriteError output_filename)) written /\
    block = attempts_trace (Py.path_join tmp_dir p.2) j
            ++ [LogInfo (MsgProgress p.1 total_segments s)]
            ++ written
            ++ (if p.1 <? total_segments then [Sleep (1 # 2)] else []).

(** The events of one file, [audio_file], numbered [file_index] among
    [total_files], in a run of the driver loop: they start with the
    message that opens the processing of the file and hold no other
    such message; the texts appended all go to [output_filename] and
    are, in order, among the header line of the file, the lines of its
    tracks and the blank line, where the tracks of the file are the
    first occurrences of the recognized strings of the progress lines
    of these very events; the logged summary lists the same tracks. *)
Definition file_block (output_filename : string) (total_files : Z)
    (audio_file : string) (file_index : Z) (block : list Event) : Prop :=
  let tracks := first_seen (found (progress block)) in
  head block = Some (LogInfo (processing_msg audio_file file_index total_files)) /\
  started block = [processing_msg audio_file file_index total_files] /\
  sublist (appends block) (file_section output_filename audio_file tracks) /\
  Forall (fun q => q.1 = output_filename) (appends block) /\
  tracklist block = Py.enumerate tracks 1.



(** The provider of an allowlisted host name. *)
Definition provider_of (h : string) : Provider :=
  if bool_decide (h ∈ ["soundcloud.com"; "www.soundcloud.com"; "m.soundcloud.com"])
  then SoundCloud else YouTube.

(** * Properties *)

(** ** Python built-ins *)

Lemma range_from_fuel (f1 f2 : nat) (i stop step : Z) :
  0 < step ->
  (Z.to_nat (stop - i) <= f1)%nat ->
  (Z.to_nat (stop - i) <= f2)%nat ->
  Py.range_from f1 i stop step = Py.range_from f2 i stop step.
Proof.
  intros Hstep. revert f2 i.
  induction f1 as [|f1 IH]; intros [|f2] i H1 H2; simpl; try reflexivity.
  - destruct (Z.ltb_spec i stop); [lia | reflexivity].
  - destruct (Z.ltb_spec i stop); [lia | reflexivity].
  - destruct (Z.ltb_spec i stop); [|reflexivity].
    f_equal. apply IH; lia.
Qed.

Lemma range_unfold (i stop step : Z) :
  0 < step ->
  Py.range i stop step =
    if i <? stop then i :: Py.range (i + step) stop step else [].
Proof.
  intros Hstep. unfold Py.range.
  destruct (Z.ltb_spec i stop) as [Hlt|Hge].
  - destruct (Z.to_nat (stop - i)) as [|f] eqn:Hf; [lia|].
    simpl. destruct (Z.ltb_spec i stop); [|lia].
    f_equal. apply range_from_fuel; lia.
  - replace (Z.to_nat (stop - i)) with O by lia. reflexivity.
Qed.

Lemma range_step_1 (stop : Z) (n : nat) (i : Z) :
  stop = i + Z.of_nat n -> Py.range i stop 1 = seqZ i (Z.of_nat n).
Proof.
  revert i. induction n as [|n IH]; intros i ->; rewrite range_unfold by lia.
  - destruct (Z.ltb_spec i (i + Z.of_nat 0)); [lia | reflexivity].
  - destruct (Z.ltb_spec i (i + Z.of_nat (S n))); [|lia].
    rewrite seqZ_cons by lia. f_equal.
    rewrite IH by lia. f_equal; lia.
Qed.

Lemma enumerate_fst {A} (l : list A) (start : Z) :
  (Py.enumerate l start).*1 = seqZ start (Z.of_nat (length l)).
Proof.
  revert start. induction l as [|x l IH]; intros start; simpl; [reflexivity|].
  rewrite seqZ_cons by lia. f_equal.
  rewrite IH. f_equal; lia.
Qed.

Lemma enumerate_snd {A} (l : list A) (start : Z) :
  (Py.enumerate l start).*2 = l.
Proof.
  revert start. induction l as [|x l IH]; intros start; simpl; [reflexivity|].
  by rewrite IH.
Qed.

Lemma enumerate_length {A} (l : list A) (start : Z) :
  length (Py.enumerate l start) = length l.
Proof.
  revert start. induction l as [|x l IH]; intros start; simpl; [reflexivity|].
  by rewrite IH.
Qed.

Lemma enumerate_lookup {A} (l : list A) (start : Z) (k : nat) (idx : Z) (x : A) :
  Py.enumerate l start !! k = Some (idx, x) <->
  idx = start + Z.of_nat k /\ l !! k = Some x.
Proof.
  revert start k. induction l as [|y l IH]; intros start k; simpl.
  - split; [intros [=] | intros [_ [=]]].
  - destruct k as [|k]; simpl.
    + split; [intros [= <- <-]; split; [lia|done] | intros [-> [= ->]]; f_equal; f_equal; lia].
    + rewrite IH. split; intros [-> H]; (split; [lia | done]).
Qed.

(** ** Windower *)

Lemma segment_durations_from (audio : AudioSegment) (q : nat) (i r : Z) :
  0 <= r < SEGMENT_LENGTH ->
  len audio = i + Z.of_nat q * SEGMENT_LENGTH + r ->
  map (fun j => len (slice audio j (j + SEGMENT_LENGTH)))
      (Py.range i (len audio) SEGMENT_LENGTH)
  = replicate q SEGMENT_LENGTH ++ (if r =? 0 then [] else [r]).
Proof.
  assert (HW : 0 < SEGMENT_LENGTH) by reflexivity.
  revert i. induction q as [|q IH]; intros i Hr HD.
  - rewrite range_unfold by done. simpl.
    destruct (Z.eqb_spec r 0) as [->|Hne].
    + destruct (Z.ltb_spec i (len audio)); [lia | reflexivity].
    + destruct (Z.ltb_spec i (len audio)); [|lia].
      rewrite range_unfold by done.
      destruct (Z.ltb_spec (i + SEGMENT_LENGTH) (len audio)); [lia|].
      simpl. f_equal. lia.
  - rewrite range_unfold by done.
    destruct (Z.ltb_spec i (len audio)); [|lia].
    simpl. f_equal; [lia|].
    apply IH; [done | lia].
Qed.

Lemma split_segments_durations (audio : AudioSegment) :
  0 <= len audio ->
  map len (split_segments audio)
  = replicate (Z.to_nat (len audio / SEGMENT_LENGTH)) SEGMENT_LENGTH
    ++ (if len audio mod SEGMENT_LENGTH =? 0 then []
        else [len audio mod SEGMENT_LENGTH]).
Proof.
  intros HD. unfold split_segments. rewrite map_map.
  assert (HW : 0 < SEGMENT_LENGTH) by reflexivity.
  apply segment_durations_from.
  - apply Z.mod_pos_bound; done.
  - pose proof (Z.div_mod (len audio) SEGMENT_LENGTH).
    pose proof (Z.div_pos (len audio) SEGMENT_LENGTH).
    lia.
Qed.

(** ** The monad *)

Lemma bind_ok {A B} (m : M A) (f : A -> M B) (w : World) (a : A) (w' : World) :
  m w = (Ok a, w') -> bind m f w = f a w'.
Proof. intros H. unfold bind. by rewrite H. Qed.

(** ** Retry policy *)

Section RetryPolicy.

Variable env : Collaborators.

Lemma advance_advance (k1 k2 : nat) (evs1 evs2 : list Event) (w : World) :
  advance k2 evs2 (advance k1 evs1 w) = advance (k1 + k2) (evs1 ++ evs2) w.
Proof. unfold advance; simpl. f_equal; [lia | by rewrite app_assoc]. Qed.

Lemma fails_recognized (o : Outcome Data) : fails o -> recognized o = None.
Proof. destruct o as [[[t|]]|e]; simpl; [intros [=] | done | done]. Qed.

Lemma succeeds_with_recognized (o : Outcome Data) (s : string) :
  succeeds_with o s <-> recognized o = Some s.
Proof.
  split.
  - intros (t & a & -> & ->). reflexivity.
  - destruct o as [[[[[t|] [a|]]|]]|e]; simpl; intros [=]. by exists t, a.
Qed.

Lemma recognized_canonical (o : Outcome Data) (s : string) :
  recognized o = Some s -> is_canonical s.
Proof. intros (t & a & _ & ->)%succeeds_with_recognized. by exists t, a. Qed.

Lemma get_name_attempt_found (file_path : string) (max_retries attempt : Z)
    (w : World) (s : string) :
  recognized (recognize env (calls w) file_path) = Some s ->
  get_name_attempt env file_path max_retries attempt w
  = (Ok (Return s), advance 1 [Recognize file_path] w).
Proof.
  intros (t & a & Ho & ->)%succeeds_with_recognized.
  unfold get_name_attempt, try_except, bind, shazam_recognize; simpl.
  rewrite Ho; simpl. unfold advance, ret. do 3 f_equal. lia.
Qed.

Lemma get_name_attempt_failed (file_path : string) (max_retries attempt : Z)
    (w : World) :
  recognized (recognize env (calls w) file_path) = None ->
  get_name_attempt env file_path max_retries attempt w
  = if attempt <? max_retries - 1
    then (Ok Next, advance 1 [Recognize file_path; Sleep 2] w)
    else (Ok (Return "Not found"), advance 1 [Recognize file_path] w).
Proof.
  intros Ho.
  unfold get_name_attempt, try_except, bind, shazam_recognize; simpl.
  destruct (recognize env (calls w) file_path) as [[[[[t|] [a|]]|]]|e];
    simpl in *; try discriminate;
    destruct (attempt <? max_retries - 1); simpl;
    unfold advance, ret; simpl; rewrite <- ?app_assoc; simpl;
    do 3 f_equal; lia.
Qed.

(** [j] failed attempts, then a success, with at least [j + 1]
    attempts left. *)
Lemma get_name_loop_found (file_path : string) (max_retries : Z) (s : string)
    (j k : nat) (a : Z) (w : World) :
  a + Z.of_nat k = max_retries ->
  (j < k)%nat ->
  (forall i, (i < j)%nat ->
     recognized (recognize env (calls w + i) file_path) = None) ->
  recognized (recognize env (calls w + j) file_path) = Some s ->
  get_name_loop env file_path max_retries (seqZ a (Z.of_nat k)) w
  = (Ok (Some s), advance (S j) (attempts_trace file_path (S j)) w).
Proof.
  revert k a w. induction j as [|j IH]; intros k a w Ha Hjk Hfail Hok.
  - destruct k as [|k]; [lia|]. rewrite seqZ_cons by lia. simpl.
    unfold bind. rewrite get_name_attempt_found with (s := s).
    + reflexivity.
    + by rewrite Nat.add_0_r in Hok.
  - destruct k as [|k]; [lia|]. rewrite seqZ_cons by lia. simpl.
    unfold bind at 1. rewrite get_name_attempt_failed.
    2:{ specialize (Hfail O ltac:(lia)). by rewrite Nat.add_0_r in Hfail. }
    destruct (Z.ltb_spec a (max_retries - 1)); [|lia].
    replace (Z.pred (Z.of_nat (S k))) with (Z.of_nat k) by lia.
    rewrite (IH k (Z.succ a)); simpl.
    + rewrite advance_advance. reflexivity.
    + lia.
    + lia.
    + intros i Hi. specialize (Hfail (S i) ltac:(lia)).
      by replace (calls w + 1 + i)%nat with (calls w + S i)%nat by lia.
    + by replace (calls w + 1 + j)%nat with (calls w + S j)%nat by lia.
Qed.

(** All the [k >= 1] attempts that are left fail. *)
Lemma get_name_loop_exhausted (file_path : string) (max_retries : Z)
    (k : nat) (a : Z) (w : World) :
  a + Z.of_nat k = max_retries ->
  (0 < k)%nat ->
  (forall i, (i < k)%nat ->
     recognized (recognize env (calls w + i) file_path) = None) ->
  get_name_loop env file_path max_retries (seqZ a (Z.of_nat k)) w
  = (Ok (Some "Not found"), advance k (attempts_trace file_path k) w).
Proof.
  revert a w. induction k as [|k IH]; intros a w Ha Hk Hfail; [lia|].
  rewrite seqZ_cons by lia. simpl get_name_loop.
  unfold bind at 1. rewrite get_name_attempt_failed.
  2:{ specialize (Hfail O ltac:(lia)). by rewrite Nat.add_0_r in Hfail. }
  destruct k as [|k].
  - destruct (Z.ltb_spec a (max_retries - 1)); [lia|]. reflexivity.
  - destruct (Z.ltb_spec a (max_retries - 1)); [|lia].
    replace (Z.pred (Z.of_nat (S (S k)))) with (Z.of_nat (S k)) by lia.
    rewrite (IH (Z.succ a)).
    + rewrite advance_advance. reflexivity.
    + lia.
    + lia.
    + intros i Hi. specialize (Hfail (S i) ltac:(lia)). simpl.
      by replace (calls w + 1 + i)%nat with (calls w + S i)%nat by lia.
Qed.

Lemma get_name_range (file_path : string) (max_retries : Z) :
  0 <= max_retries ->
  get_name env file_path max_retries
  = get_name_loop env file_path max_retries
      (seqZ 0 (Z.of_nat (Z.to_nat max_retries))).
Proof.
  intros H. unfold get_name.
  by rewrite (range_step_1 max_retries (Z.to_nat max_retries) 0) by lia.
Qed.

Lemma attempts_trace_requests (file_path : string) (k : nat) :
  requests (attempts_trace file_path k) = replicate k file_path.
Proof.
  induction k as [|[|k] IH]; [done | done |].
  change (requests (attempts_trace file_path (S (S k))))
    with (file_path :: requests (attempts_trace file_path (S k))).
  by rewrite IH.
Qed.

Lemma attempts_trace_waits (file_path : string) (k : nat) :
  waits (attempts_trace file_path k) = replicate (k - 1) 2%Q.
Proof.
  induction k as [|[|k] IH]; [done | done |].
  change (waits (attempts_trace file_path (S (S k))))
    with (2%Q :: waits (attempts_trace file_path (S k))).
  rewrite IH. simpl. by rewrite Nat.sub_0_r.
Qed.

(** C2: with [max_retries >= 1], a service that fails on every request
    is asked exactly [max_retries] times, with a wait of 2 between two
    consecutive requests, and the result is ["Not found"]; a service
    that first succeeds on attempt [k <= max_retries] is asked exactly
    [k] times and the result is the canonical track string. *)
Theorem get_name_attempt_count (file_path : string) (max_retries : Z)
    (w : World) :
  1 <= max_retries ->
  ((forall i : nat,
       Z.of_nat i < max_retries ->
       fails (recognize env (calls w + i) file_path)) ->
   let n := Z.to_nat max_retries in
   get_name env file_path max_retries w
   = (Ok (Some "Not found"), advance n (attempts_trace file_path n) w)) /\
  (forall (k : nat) (s : string),
      1 <= Z.of_nat k <= max_retries ->
      (forall i : nat,
          (S i < k)%nat -> fails (recognize env (calls w + i) file_path)) ->
      succeeds_with (recognize env (calls w + (k - 1)) file_path) s ->
      get_name env file_path max_retries w
      = (Ok (Some s), advance k (attempts_trace file_path k) w)) /\
  (forall k : nat,
      requests (attempts_trace file_path k) = replicate k file_path /\
      waits (attempts_trace file_path k) = replicate (k - 1) 2%Q).
Proof.
  intros Hmax. split_and!.
  - intros Hfail n. rewrite get_name_range by lia. fold n.
    apply get_name_loop_exhausted; [lia | lia |].
    intros i Hi. apply fails_recognized, Hfail. lia.
  - intros k s Hk Hfail Hok. rewrite get_name_range by lia.
    destruct k as [|j]; [lia|].
    apply get_name_loop_found; [lia | lia | |].
    + intros i Hi. apply fails_recognized, Hfail. lia.
    + apply succeeds_with_recognized.
      by replace (S j - 1)%nat with j in Hok by lia.
  - intros k. split; [apply attempts_trace_requests | apply attempts_trace_waits].
Qed.

Lemma get_name_loop_total (file_path : string) (max_retries : Z)
    (k : nat) (a : Z) (w : World) :
  a + Z.of_nat k = max_retries ->
  (0 < k)%nat ->
  exists (j : nat) (s : string),
    (0 < j <= k)%nat /\
    (s = "Not found" \/ answers env s) /\
    get_name_loop env file_path max_retries (seqZ a (Z.of_nat k)) w
    = (Ok (Some s), advance j (attempts_trace file_path j) w).
Proof.
  revert a w. induction k as [|k IH]; intros a w Ha Hk; [lia|].
  destruct (recognized (recognize env (calls w) file_path)) as [s|] eqn:Ho.
  - exists 1%nat, s. split_and!; [lia | lia | right; by eexists _, _ |].
    apply get_name_loop_found; [done | lia | lia | by rewrite Nat.add_0_r].
  - rewrite seqZ_cons by lia. simpl get_name_loop.
    unfold bind at 1. rewrite get_name_attempt_failed by done.
    destruct (Z.ltb_spec a (max_retries - 1)).
    + replace (Z.pred (Z.of_nat (S k))) with (Z.of_nat k) by lia.
      destruct (IH (Z.succ a) (advance 1 [Recognize file_path; Sleep 2] w))
        as (j & s & Hj & Hs & ->); [lia | lia |].
      exists (S j), s. split_and!; [lia | lia | done |].
      rewrite advance_advance. destruct j; [lia | reflexivity].
    + exists 1%nat, "Not found". split_and!; [lia | lia | by left | reflexivity].
Qed.

(** The loop of [get_name] returns what [first_answer] reads off the
    answers of the service. *)
Lemma get_name_loop_first_answer (file_path : string) (max_retries : Z)
    (k : nat) (a : Z) (w : World) :
  a + Z.of_nat k = max_retries ->
  (0 < k)%nat ->
  let r := first_answer env file_path (calls w) k in
  (0 < r.1 <= k)%nat /\
  (r.2 = "Not found" \/ answers env r.2) /\
  get_name_loop env file_path max_retries (seqZ a (Z.of_nat k)) w
  = (Ok (Some r.2), advance r.1 (attempts_trace file_path r.1) w).
Proof.
  revert a w. induction k as [|k IH]; intros a w Ha Hk; [lia|].
  cbn zeta. cbn [first_answer].
  destruct (recognized (recognize env (calls w) file_path)) as [s|] eqn:Ho.
  - cbn [fst snd]. split_and!; [lia | lia | right; by eexists _, _ |].
    apply get_name_loop_found; [done | lia | lia | by rewrite Nat.add_0_r].
  - rewrite seqZ_cons by lia. simpl get_name_loop.
    unfold bind at 1. rewrite get_name_attempt_failed by done.
    destruct k as [|k].
    + destruct (Z.ltb_spec a (max_retries - 1)); [lia|]. cbn [fst snd].
      split_and!; [lia | lia | by left | reflexivity].
    + destruct (Z.ltb_spec a (max_retries - 1)); [|lia].
      replace (Z.pred (Z.of_nat (S (S k)))) with (Z.of_nat (S k)) by lia.
      destruct (IH (Z.succ a) (advance 1 [Recognize file_path; Sleep 2] w))
        as (Hj & Hs & ->); [lia | lia |].
      cbn [calls advance] in *.
      replace (calls w + 1)%nat with (S (calls w)) in * by lia.
      cbn [fst snd].
      destruct (first_answer env file_path (S (calls w)) (S k)) as [j s].
      cbn [fst snd] in *.
      split_and!; [lia | lia | done |].
      rewrite advance_advance. destruct j; [lia | reflexivity].
Qed.

Lemma answers_canonical (s : string) : answers env s -> is_canonical s.
Proof. intros (n & p & H). by eapply recognized_canonical. Qed.

(** C9: with [max_retries >= 1], whatever the service does, [get_name]
    returns a string, the canonical string of a track or ["Not found"],
    and does not raise; with [max_retries = 0] the loop body never runs
    and the result is [None]. *)
Theorem get_name_returns_string (file_path : string) (max_retries : Z)
    (w : World) :
  (1 <= max_retries ->
   exists (s : string) (w' : World),
     get_name env file_path max_retries w = (Ok (Some s), w') /\
     (s = "Not found" \/ is_canonical s)) /\
  get_name env file_path 0 w = (Ok None, w).
Proof.
  split; [|reflexivity].
  intros Hmax. rewrite get_name_range by lia.
  destruct (get_name_loop_total file_path max_retries
              (Z.to_nat max_retries) 0 w) as (j & s & _ & Hs & ->); [lia | lia |].
  exists s. eexists. split; [reflexivity|].
  destruct Hs as [Hs|Hs]; [by left | right; by apply answers_canonical].
Qed.

End RetryPolicy.

(** C2, at a service that is down and at one that answers on the third
    request, with three attempts allowed. *)
Lemma get_name_attempt_count_witness :
  get_name Demo.env_down "1.mp3" 3 Demo.w0
  = (Ok (Some "Not found"),
     advance 3 [Recognize "1.mp3"; Sleep 2; Recognize "1.mp3"; Sleep 2;
                Recognize "1.mp3"] Demo.w0) /\
  get_name Demo.env_flaky "1.mp3" 3 Demo.w0
  = (Ok (Some "Joni - Blue"),
     advance 3 [Recognize "1.mp3"; Sleep 2; Recognize "1.mp3"; Sleep 2;
                Recognize "1.mp3"] Demo.w0).
Proof.
  split.
  - destruct (get_name_attempt_count Demo.env_down "1.mp3" 3 Demo.w0)
      as (Hdown & _ & _); [lia|].
    apply Hdown. intros i _. exact I.
  - destruct (get_name_attempt_count Demo.env_flaky "1.mp3" 3 Demo.w0)
      as (_ & Hfound & _); [lia|].
    apply (Hfound 3%nat); [lia | |].
    + intros [|[|i]] Hi; [exact I | reflexivity | lia].
    + exists "Blue", "Joni". split; reflexivity.
Defined.

(** C9, at a service that is down, with one attempt allowed. *)
Lemma get_name_returns_string_witness :
  exists (s : string) (w' : World),
    get_name Demo.env_down "1.mp3" 1 Demo.w0 = (Ok (Some s), w') /\
    (s = "Not found" \/ is_canonical s).
Proof.
  apply (get_name_returns_string Demo.env_down "1.mp3" 1 Demo.w0). lia.
Defined.

(** ** URL dispatch *)

Section UrlDispatch.

Variable env : Collaborators.

Lemma allowed_domain_provider (h : string) :
  h ∈ ALLOWED_DOMAINS ->
  Py.contains "soundcloud.com" h = true \/
  Py.contains "youtube.com" h = true \/
  h = "youtu.be".
Proof.
  unfold ALLOWED_DOMAINS. rewrite !elem_of_union, !elem_of_singleton.
  intros H. destruct_or!; subst h; auto.
Qed.

Lemma validate_url_accepts (url : string) :
  validate_url env url = Ok url ->
  exists h, hostname (urlparse env url) = Some h /\ h ∈ ALLOWED_DOMAINS.
Proof.
  unfold validate_url.
  destruct (bool_decide _); simpl; [|discriminate].
  destruct (hostname (urlparse env url)) as [h|]; [|discriminate].
  destruct (bool_decide (h ∈ ALLOWED_DOMAINS)) eqn:Hh; simpl; [|discriminate].
  intros _. exists h. split; [done|]. by apply bool_decide_eq_true in Hh.
Qed.

(** C10: for a URL that [validate_url] accepts, [download_from_url]
    takes the SoundCloud or the YouTube branch, never the one that
    reports an unsupported URL: every allowlisted host name contains
    ["soundcloud.com"], contains ["youtube.com"] or is ["youtu.be"]. *)
Theorem download_from_url_dispatches (url : string) (w : World) :
  validate_url env url = Ok url ->
  (exists (provider : Provider) (w' : World),
      download_from_url env url w = (Ok (download env provider url), w') /\
      trace w' = trace w ++ [LogInfo MsgStartingDownload;
                             LogInfo (detected provider);
                             Download provider url]) /\
  (forall h : string,
      h ∈ ALLOWED_DOMAINS ->
      Py.contains "soundcloud.com" h = true \/
      Py.contains "youtube.com" h = true \/
      h = "youtu.be").
Proof.
  intros Hv. split; [|apply allowed_domain_provider].
  destruct (validate_url_accepts url Hv) as (h & Hh & Hin).
  unfold download_from_url, bind, lift, log_info, emit; simpl.
  rewrite Hv, Hh.
  destruct (Py.contains "soundcloud.com" h) eqn:Hsc.
  - exists SoundCloud. eexists. split; [reflexivity|].
    simpl. by rewrite <- !app_assoc.
  - destruct (allowed_domain_provider h Hin) as [Hc|[Hc| ->]]; [congruence | |].
    + rewrite Hc. exists YouTube. eexists. split; [reflexivity|].
      simpl. by rewrite <- !app_assoc.
    + exists YouTube. eexists. split; [reflexivity|].
      simpl. by rewrite <- !app_assoc.
Qed.

End UrlDispatch.

(** C10, at a [youtu.be] link. *)
Lemma download_from_url_dispatches_witness :
  validate_url Demo.env_flaky "https://youtu.be/x" = Ok "https://youtu.be/x" /\
  exists (provider : Provider) (w' : World),
    download_from_url Demo.env_flaky "https://youtu.be/x" Demo.w0
    = (Ok (download Demo.env_flaky provider "https://youtu.be/x"), w') /\
    trace w' = trace Demo.w0 ++ [LogInfo MsgStartingDownload;
                                 LogInfo (detected provider);
                                 Download provider "https://youtu.be/x"].
Proof.
  split; [reflexivity|].
  apply (download_from_url_dispatches Demo.env_flaky "https://youtu.be/x" Demo.w0).
  reflexivity.
Defined.

(** ** Recognition sequencer *)

Section FirstSeen.

Lemma elem_of_first_seen (x : string) (l : list string) :
  x ∈ first_seen l <-> x ∈ l.
Proof.
  induction l as [|y l IH]; simpl; [done|].
  rewrite !elem_of_cons, list_elem_of_filter, IH.
  destruct (decide (x = y)); naive_solver.
Qed.

Lemma NoDup_first_seen (l : list string) : NoDup (first_seen l).
Proof.
  induction l as [|y l IH]; simpl; [constructor|].
  constructor.
  - rewrite list_elem_of_filter. naive_solver.
  - by apply NoDup_filter.
Qed.

Lemma first_seen_snoc (l : list string) (x : string) :
  first_seen (l ++ [x]) = first_seen l ++ (if decide (x ∈ l) then [] else [x]).
Proof.
  induction l as [|y l IH]; simpl; [done|].
  rewrite IH, filter_app. f_equal. f_equal.
  destruct (decide (x ∈ l)) as [Hin|Hin].
  - rewrite decide_True by (by right). done.
  - destruct (decide (x = y)) as [->|Hne].
    + rewrite decide_True by (by left).
      rewrite filter_cons_False by naive_solver. done.
    + rewrite decide_False by (rewrite elem_of_cons; naive_solver).
      rewrite filter_cons_True by done. done.
Qed.

Lemma found_snoc (l : list string) (s : string) :
  found (l ++ [s]) = found l ++ (if decide (s = "Not found") then [] else [s]).
Proof.
  unfold found. rewrite filter_app. f_equal.
  destruct (decide (s = "Not found")).
  - by rewrite filter_cons_False by naive_solver.
  - by rewrite filter_cons_True by done.
Qed.

Lemma not_found_not_in_found (l : list string) : "Not found" ∉ found l.
Proof. unfold found. rewrite list_elem_of_filter. naive_solver. Qed.

(** The place of a first occurrence. *)
Lemma first_seen_prefix (l1 l2 : list string) :
  exists l3, first_seen (l1 ++ l2) = first_seen l1 ++ l3.
Proof.
  revert l1. induction l2 as [|x l2 IH] using rev_ind; intros l1.
  - exists []. by rewrite !app_nil_r.
  - destruct (IH l1) as [l3 Hl3].
    rewrite app_assoc, first_seen_snoc, Hl3, <- app_assoc. eauto.
Qed.

Lemma first_seen_lookup_first (l1 l2 : list string) (s : string) :
  s ∉ l1 ->
  first_seen (l1 ++ s :: l2) !! length (first_seen l1) = Some s.
Proof.
  intros Hfirst. rewrite cons_middle, app_assoc.
  destruct (first_seen_prefix (l1 ++ [s]) l2) as [l3 ->].
  rewrite first_seen_snoc, decide_False by done.
  rewrite <- app_assoc. rewrite lookup_app_r by lia.
  by rewrite Nat.sub_diag.
Qed.

Lemma found_elem_of (l : list string) (s : string) :
  s ∈ found l <-> s ≠ "Not found" /\ s ∈ l.
Proof. unfold found. by rewrite list_elem_of_filter. Qed.

End FirstSeen.

(** The observers distribute over the concatenation of traces. *)
Lemma appends_app (evs1 evs2 : list Event) :
  appends (evs1 ++ evs2) = appends evs1 ++ appends evs2.
Proof. apply omap_app. Qed.

Lemma requests_app (evs1 evs2 : list Event) :
  requests (evs1 ++ evs2) = requests evs1 ++ requests evs2.
Proof. apply omap_app. Qed.

Lemma tracklist_app (evs1 evs2 : list Event) :
  tracklist (evs1 ++ evs2) = tracklist evs1 ++ tracklist evs2.
Proof. apply omap_app. Qed.

Lemma progress_app (evs1 evs2 : list Event) :
  progress (evs1 ++ evs2) = progress evs1 ++ progress evs2.
Proof. apply omap_app. Qed.

Section Sequencer.

Variable env : Collaborators.

Lemma get_name_default (file_path : string) (w : World) :
  exists (j : nat) (s : string),
    (0 < j <= 3)%nat /\
    (s = "Not found" \/ answers env s) /\
    first_answer env file_path (calls w) 3 = (j, s) /\
    get_name env file_path 3 w
    = (Ok (Some s), advance j (attempts_trace file_path j) w).
Proof.
  rewrite get_name_range by lia.
  destruct (get_name_loop_first_answer env file_path 3 3 0 w)
    as (Hj & Hs & Hget); [lia | lia |].
  destruct (first_answer env file_path (calls w) 3) as [j s] eqn:Hr.
  exists j, s. split_and!; [exact (proj1 Hj) | exact (proj2 Hj) | done | done |].
  exact Hget.
Qed.

Lemma write_to_file_track (s filename : string) (w : World) :
  s ≠ "Not found" ->
  write_to_file env s filename w
  = (Ok tt,
     {| calls := calls w; opens := S (opens w); scratch := scratch w;
        unique_tracks := unique_tracks w; seen_tracks := seen_tracks w;
        trace := trace w ++ [if open_fails env (opens w) filename
                             then Stdout (MsgWriteError filename)
                             else Append filename (track_line s)] |}).
Proof.
  intros Hs. unfold write_to_file.
  destruct (String.eqb_spec s "Not found") as [|_]; [done|]. simpl.
  unfold try_except, append_text.
  destruct (open_fails env (opens w) filename); reflexivity.
Qed.

(** Both cases of the pacing delay, once the body of the loop is
    evaluated. *)
Ltac pacing_cases :=
  match goal with
  | |- context [?idx <? ?total] =>
      destruct (idx <? total); cbn -[attempts_trace];
      rewrite <- ?app_assoc; cbn -[attempts_trace]; rewrite ?app_nil_r;
      reflexivity
  end.

Lemma recognize_segment_spec (tmp_dir : string) (total_segments : Z)
    (output_filename : string) (idx : Z) (file_name : string) (w : World) :
  exists (j : nat) (s : string),
    (0 < j <= 3)%nat /\
    (s = "Not found" \/ answers env s) /\
    first_answer env (Py.path_join tmp_dir file_name) (calls w) 3 = (j, s) /\
    recognize_segment env tmp_dir total_segments output_filename idx file_name w
    = (Ok tt,
       after_segment env output_filename idx total_segments
         (Py.path_join tmp_dir file_name) j s w).
Proof.
  destruct (get_name_default (Py.path_join tmp_dir file_name) w)
    as (j & s & Hj & Hs & Hlook & Hget).
  exists j, s. split_and!; [lia | lia | done | done |].
  unfold recognize_segment, try_except, bind. rewrite Hget.
  unfold after_segment, segment_events, is_new, log_info, emit, is_seen,
    add_track, ret, sleep, emit.
  cbn [trace seen_tracks unique_tracks calls opens scratch advance from_option id].
  destruct (String.eqb_spec s "Not found") as [Heq|Hne]; simpl negb.
  - rewrite !andb_false_l. cbn -[attempts_trace]. pacing_cases.
  - rewrite !andb_true_l.
    destruct (bool_decide (s ∈ seen_tracks w)); simpl negb; cbv iota.
    + cbn -[attempts_trace]. pacing_cases.
    + cbn -[attempts_trace write_to_file].
      rewrite write_to_file_track by done. pacing_cases.
Qed.

Lemma progress_attempts (file_path : string) (k : nat) :
  progress (attempts_trace file_path k) = [].
Proof. induction k as [|[|k] IH]; [done | done | exact IH]. Qed.

Lemma appends_attempts (file_path : string) (k : nat) :
  appends (attempts_trace file_path k) = [].
Proof. induction k as [|[|k] IH]; [done | done | exact IH]. Qed.

Lemma tracklist_attempts (file_path : string) (k : nat) :
  tracklist (attempts_trace file_path k) = [].
Proof. induction k as [|[|k] IH]; [done | done | exact IH]. Qed.

Lemma progress_segment_events (output_filename : string)
    (idx total_segments : Z) (file_path : string) (j : nat) (s : string)
    (w : World) :
  progress (segment_events env output_filename idx total_segments
              file_path j s w) = [s].
Proof.
  unfold segment_events, progress. rewrite !omap_app.
  fold (progress (attempts_trace file_path j)). rewrite progress_attempts.
  destruct (is_new s w); [destruct (open_fails _ _ _)|];
    destruct (idx <? total_segments); reflexivity.
Qed.

Lemma tracklist_segment_events (output_filename : string)
    (idx total_segments : Z) (file_path : string) (j : nat) (s : string)
    (w : World) :
  tracklist (segment_events env output_filename idx total_segments
               file_path j s w) = [].
Proof.
  unfold segment_events, tracklist. rewrite !omap_app.
  fold (tracklist (attempts_trace file_path j)). rewrite tracklist_attempts.
  destruct (is_new s w); [destruct (open_fails _ _ _)|];
    destruct (idx <? total_segments); reflexivity.
Qed.

Lemma requests_segment_events (output_filename : string)
    (idx total_segments : Z) (file_path : string) (j : nat) (s : string)
    (w : World) :
  requests (segment_events env output_filename idx total_segments
              file_path j s w) = replicate j file_path.
Proof.
  unfold segment_events, requests. rewrite !omap_app.
  fold (requests (attempts_trace file_path j)).
  rewrite attempts_trace_requests.
  destruct (is_new s w); [destruct (open_fails _ _ _)|];
    destruct (idx <? total_segments); simpl; by rewrite app_nil_r.
Qed.

Lemma appends_segment_events (output_filename : string)
    (idx total_segments : Z) (file_path : string) (j : nat) (s : string)
    (w : World) :
  appends (segment_events env output_filename idx total_segments
             file_path j s w)
  = if is_new s w && negb (open_fails env (opens w) output_filename)
    then [(output_filename, track_line s)] else [].
Proof.
  unfold segment_events, appends. rewrite !omap_app.
  fold (appends (attempts_trace file_path j)). rewrite appends_attempts.
  destruct (is_new s w); [destruct (open_fails _ _ _)|];
    destruct (idx <? total_segments); reflexivity.
Qed.

Lemma recognize_loop_run (tmp_dir : string) (total_segments : Z)
    (output_filename : string) (files : list (Z * string)) (w : World) :
  exists w' : World,
    recognize_loop env tmp_dir total_segments output_filename files w
    = (Ok tt, w') /\
    segments_run env tmp_dir total_segments output_filename files w w'.
Proof.
  revert w. induction files as [|[idx file_name] rest IH]; intros w.
  - exists w. split; [reflexivity | constructor].
  - destruct (recognize_segment_spec tmp_dir total_segments output_filename
                idx file_name w) as (j & s & Hj & Hs & Hlook & Hstep).
    destruct (IH (after_segment env output_filename idx total_segments
                    (Py.path_join tmp_dir file_name) j s w))
      as (w' & Hloop & Hrun).
    exists w'. split.
    + simpl. by rewrite (bind_ok _ _ _ _ _ Hstep).
    + by econstructor.
Qed.

Lemma is_new_spec (s : string) (w : World) :
  seen_tracks w = list_to_set (unique_tracks w) ->
  is_new s w = bool_decide (s ≠ "Not found" /\ s ∉ unique_tracks w).
Proof.
  intros Hseen. unfold is_new. rewrite Hseen.
  destruct (bool_decide_reflect (s ≠ "Not found" /\ s ∉ unique_tracks w))
    as [[Hne Hnin]|Hn].
  - apply andb_true_iff. split; apply negb_true_iff.
    + by apply String.eqb_neq.
    + apply bool_decide_eq_false_2. set_solver.
  - apply andb_false_iff.
    destruct (decide (s = "Not found")) as [Heq|Hne].
    + left. apply negb_false_iff. by apply String.eqb_eq.
    + right. apply negb_false_iff. apply bool_decide_eq_true_2.
      destruct (decide (s ∈ unique_tracks w)); [set_solver | naive_solver].
Qed.

(** The invariant of the track set: the list holds the first
    occurrences of the tracks recognized so far, the set its elements. *)
Lemma segments_run_unique_tracks (tmp_dir : string) (total_segments : Z)
    (output_filename : string) (files : list (Z * string)) (w w' : World) :
  segments_run env tmp_dir total_segments output_filename files w w' ->
  forall results : list string,
    seen_tracks w = list_to_set (unique_tracks w) ->
    unique_tracks w = first_seen (found results) ->
    exists evs : list Event,
      trace w' = trace w ++ evs /\
      unique_tracks w' = first_seen (found (results ++ progress evs)) /\
      seen_tracks w' = list_to_set (unique_tracks w').
Proof.
  induction 1 as [w | idx file_name rest j s w w' Hj Hs Hlook Hrun IH];
    intros results Hseen Huniq.
  - exists []. by rewrite !app_nil_r.
  - pose proof (is_new_spec s w Hseen) as Hnew.
    destruct (IH (results ++ [s])) as (evs & Htr & Hu & Hsn).
    + unfold after_segment; simpl. rewrite Hnew. clear Hnew.
      destruct (bool_decide_reflect (s ≠ "Not found" /\ s ∉ unique_tracks w));
        [|by rewrite app_nil_r].
      rewrite list_to_set_app_L, Hseen. set_solver.
    + unfold after_segment; simpl. rewrite Hnew. clear Hnew.
      rewrite found_snoc.
      destruct (bool_decide_reflect (s ≠ "Not found" /\ s ∉ unique_tracks w))
        as [Hc|Hc].
      * destruct Hc as [Hne Hnin].
        rewrite decide_False by done.
        rewrite first_seen_snoc, decide_False, Huniq; [done|].
        by rewrite <- elem_of_first_seen, <- Huniq.
      * destruct (decide (s = "Not found")); [by rewrite !app_nil_r|].
        rewrite first_seen_snoc, decide_True, !app_nil_r; [done|].
        rewrite <- elem_of_first_seen, <- Huniq.
        destruct (decide (s ∈ unique_tracks w)); naive_solver.
    + eexists. split; [rewrite Htr; unfold after_segment; simpl;
                       rewrite <- !app_assoc; reflexivity|].
      split; [|done]. rewrite Hu. do 2 f_equal.
      rewrite <- app_assoc. f_equal.
      unfold progress at 2. rewrite omap_app. fold (progress evs).
      fold (progress (segment_events env output_filename idx total_segments
                        (Py.path_join tmp_dir file_name) j s w)).
      by rewrite progress_segment_events.
Qed.

(** What a run of the sequencer leaves behind: the scratch directory
    is untouched; every file is asked for between one and three times,
    in the order of the list; the texts appended are lines of tracks
    that entered the track set, all of them when no write fails; no
    summary is logged. *)
Lemma segments_run_events (tmp_dir : string) (total_segments : Z)
    (output_filename : string) (files : list (Z * string)) (w w' : World) :
  segments_run env tmp_dir total_segments output_filename files w w' ->
  exists (evs : list Event) (new : list string) (counts : list nat),
    trace w' = trace w ++ evs /\
    scratch w' = scratch w /\
    unique_tracks w' = unique_tracks w ++ new /\
    length (progress evs) = length files /\
    Forall (fun s => s = "Not found" \/ answers env s) (progress evs) /\
    sublist (appends evs)
      (map (fun t => (output_filename, track_line t)) new) /\
    ((forall n, open_fails env n output_filename = false) ->
     appends evs = map (fun t => (output_filename, track_line t)) new) /\
    tracklist evs = [] /\
    requests evs
    = concat (zip_with replicate counts (map (Py.path_join tmp_dir) files.*2)) /\
    length counts = length files /\
    Forall (fun c => 0 < c <= 3)%nat counts.
Proof.
  induction 1 as [w | idx file_name rest j s w w' Hj Hs Hlook Hrun IH].
  - exists [], [], []. rewrite !app_nil_r. split_and!; try done.
  - destruct IH as (evs & new & counts & Htr & Hsc & Hu & Hpl & Hpr & Hsub
                    & Hall & Htl & Hreq & Hlen & Hcnt).
    set (p := Py.path_join tmp_dir file_name) in *.
    set (sevs := segment_events env output_filename idx total_segments p j s w).
    exists (sevs ++ evs), ((if is_new s w then [s] else []) ++ new), (j :: counts).
    split_and!.
    + rewrite Htr. unfold after_segment; simpl. by rewrite <- app_assoc.
    + by rewrite Hsc.
    + rewrite Hu. unfold after_segment; simpl. by rewrite <- app_assoc.
    + unfold progress. rewrite omap_app. fold (progress sevs) (progress evs).
      unfold sevs. rewrite progress_segment_events. simpl. by rewrite Hpl.
    + unfold progress. rewrite omap_app. fold (progress sevs) (progress evs).
      unfold sevs. rewrite progress_segment_events. by constructor.
    + unfold appends. rewrite omap_app. fold (appends sevs) (appends evs).
      rewrite map_app. apply sublist_app; [|done].
      unfold sevs. rewrite appends_segment_events.
      destruct (is_new s w); simpl; [|done].
      destruct (open_fails _ _ _); simpl; [apply sublist_nil_l | done].
    + intros Hok. unfold appends. rewrite omap_app.
      fold (appends sevs) (appends evs).
      rewrite map_app, (Hall Hok). f_equal.
      unfold sevs. rewrite appends_segment_events, Hok.
      by destruct (is_new s w).
    + unfold tracklist. rewrite omap_app. fold (tracklist sevs) (tracklist evs).
      unfold sevs. by rewrite tracklist_segment_events, Htl.
    + unfold requests. rewrite omap_app. fold (requests sevs) (requests evs).
      unfold sevs. by rewrite requests_segment_events, Hreq.
    + simpl. by rewrite Hlen.
    + by constructor.
Qed.

(** The progress lines and the requests of a run are those that the
    answers of the service determine. *)
Lemma segments_run_results (tmp_dir : string) (total_segments : Z)
    (output_filename : string) (files : list (Z * string)) (w w' : World) :
  segments_run env tmp_dir total_segments output_filename files w w' ->
  exists evs : list Event,
    trace w' = trace w ++ evs /\
    progress evs = (segment_results env tmp_dir files.*2 (calls w)).*2 /\
    requests evs
    = concat (zip_with replicate
                (segment_results env tmp_dir files.*2 (calls w)).*1
                (map (Py.path_join tmp_dir) files.*2)).
Proof.
  induction 1 as [w | idx file_name rest j s w w' Hj Hs Hlook Hrun IH].
  - exists []. by rewrite app_nil_r.
  - destruct IH as (evs & Htr & Hpr & Hreq).
    cbn [calls after_segment] in Hpr, Hreq.
    set (p := Py.path_join tmp_dir file_name) in *.
    set (sevs := segment_events env output_filename idx total_segments p j s w).
    exists (sevs ++ evs). split_and!.
    + rewrite Htr. unfold after_segment; simpl. by rewrite <- app_assoc.
    + rewrite progress_app. unfold sevs. rewrite progress_segment_events, Hpr.
      cbn [fmap list_fmap snd segment_results]. fold p. by rewrite Hlook.
    + rewrite requests_app. unfold sevs.
      rewrite requests_segment_events, Hreq.
      cbn [fmap list_fmap snd fst segment_results map]. fold p.
      by rewrite Hlook.
Qed.

Lemma first_answer_get_name (file_path : string) (w : World) :
  fst (get_name env file_path 3 w)
  = Ok (Some (first_answer env file_path (calls w) 3).2).
Proof.
  destruct (get_name_default file_path w) as (j & s & _ & _ & -> & ->).
  reflexivity.
Qed.

(** C3: a run of the sequencer that starts from an empty track set
    logs for every segment what [get_name] returns for it, which is
    what the answers of the service make of up to three requests; it
    ends with a list of unique tracks that has no duplicates and holds
    the recognized strings in the order of their first recognition: a
    string recognized for several segments is there once, at the place
    of its first occurrence. *)
Theorem recognize_segments_unique_tracks (tmp_dir : string)
    (tmp_files : list string) (total_segments : Z) (output_filename : string)
    (w : World) :
  unique_tracks w = [] ->
  seen_tracks w = ∅ ->
  let results := (segment_results env tmp_dir tmp_files (calls w)).*2 in
  (forall (file_path : string) (u : World),
      fst (get_name env file_path 3 u)
      = Ok (Some (first_answer env file_path (calls u) 3).2)) /\
  exists (w' : World) (evs : list Event),
    _recognize_segments env tmp_dir tmp_files total_segments output_filename w
    = (Ok tt, w') /\
    trace w' = trace w ++ evs /\
    progress evs = results /\
    length results = length tmp_files /\
    NoDup (unique_tracks w') /\
    unique_tracks w' = first_seen (found results) /\
    (forall s : string,
        s ∈ unique_tracks w' <-> s ∈ results /\ s ≠ "Not found") /\
    (forall (k : nat) (s : string),
        results !! k = Some s ->
        s ≠ "Not found" ->
        s ∉ take k results ->
        unique_tracks w' !! length (first_seen (found (take k results)))
        = Some s).
Proof.
  intros Hu Hs results. split; [apply first_answer_get_name|].
  unfold _recognize_segments.
  destruct (recognize_loop_run tmp_dir total_segments output_filename
              (Py.enumerate tmp_files 1) w) as (w' & Hloop & Hrun).
  destruct (segments_run_unique_tracks _ _ _ _ _ _ Hrun [])
    as (evs & Htr & Huniq & _).
  { rewrite Hu, Hs. done. }
  { by rewrite Hu. }
  simpl in Huniq.
  destruct (segments_run_results _ _ _ _ _ _ Hrun) as (evs' & Htr' & Hpr & _).
  rewrite Htr in Htr'. apply app_inv_head in Htr'. subst evs'.
  rewrite enumerate_snd in Hpr. fold results in Hpr. rewrite Hpr in Huniq.
  assert (Hlen : length results = length tmp_files).
  { unfold results. rewrite length_fmap. clear.
    generalize (calls w). induction tmp_files as [|f l IH]; intros c; [done|].
    simpl. by rewrite IH. }
  exists w', evs. split_and!; [done | done | done | done | | done | |].
  - rewrite Huniq. apply NoDup_first_seen.
  - intros s. rewrite Huniq, elem_of_first_seen, found_elem_of. tauto.
  - intros k s Hk Hne Hfirst. rewrite Huniq.
    assert (Hsplit : found results
                     = found (take k results)
                       ++ s :: found (drop (S k) results)).
    { rewrite <- (take_drop_middle results k s Hk) at 1.
      unfold found. by rewrite filter_app, filter_cons_True by done. }
    rewrite Hsplit. apply first_seen_lookup_first.
    rewrite found_elem_of. naive_solver.
Qed.

End Sequencer.

(** ** Names of the segment files *)

Section SegmentNames.

Lemma rfind_app_Some (c : ascii) (s1 s2 : string) (i : nat) :
  Py.rfind c s2 = Some i ->
  Py.rfind c (s1 ++ s2) = Some (String.length s1 + i)%nat.
Proof.
  intros H. induction s1 as [|a s1 IH]; simpl; [done|]. by rewrite IH.
Qed.

Lemma rfind_app_None (c : ascii) (s1 s2 : string) :
  Py.rfind c s2 = None -> Py.rfind c (s1 ++ s2) = Py.rfind c s1.
Proof.
  intros H. induction s1 as [|a s1 IH]; simpl; [done|]. by rewrite IH.
Qed.

Lemma rfind_absent (f : ascii -> bool) (c : ascii) (s : string) :
  Py.str_exists (fun a => negb (f a)) s = false ->
  f c = false ->
  Py.rfind c s = None.
Proof.
  intros Hs Hc. induction s as [|a s IH]; simpl in *; [done|].
  apply orb_false_iff in Hs as [Ha Hs]. rewrite (IH Hs).
  destruct (Ascii.eqb_spec a c) as [->|]; [|done].
  rewrite Hc in Ha. discriminate.
Qed.

Lemma str_take_app (s1 s2 : string) :
  Py.str_take (String.length s1) (s1 ++ s2) = s1.
Proof. induction s1 as [|a s1 IH]; simpl; [by destruct s2 | by rewrite IH]. Qed.

Lemma str_drop_app (s1 s2 : string) :
  Py.str_drop (String.length s1) (s1 ++ s2) = s2.
Proof. induction s1 as [|a s1 IH]; simpl; [by destruct s2 | done]. Qed.

Lemma string_of_uint_numeral (d : Decimal.uint) :
  Py.str_exists (fun a => negb (is_numeral_char a))
    (NilEmpty.string_of_uint d) = false.
Proof. induction d; simpl; done. Qed.

Lemma string_of_uint_nonempty (d : Decimal.uint) :
  d <> Decimal.Nil -> NilEmpty.string_of_uint d <> "".
Proof. by destruct d. Qed.

Lemma str_numeral (i : Z) :
  Py.str i <> "" /\
  Py.str_exists (fun a => negb (is_numeral_char a)) (Py.str i) = false.
Proof.
  unfold Py.str. destruct i as [|p|p]; simpl; [done | |].
  - pose proof (Unsigned.to_uint_nonnil p) as Hnil.
    unfold NilZero.string_of_uint.
    destruct (Pos.to_uint p) eqn:Hd; try done;
      rewrite <- Hd; (split; [apply string_of_uint_nonempty; congruence
                             | apply string_of_uint_numeral]).
  - pose proof (Unsigned.to_uint_nonnil p) as Hnil.
    split; [done|]. unfold NilZero.string_of_uint.
    destruct (Pos.to_uint p) eqn:Hd; try done;
      rewrite <- Hd; apply string_of_uint_numeral.
Qed.

Lemma int_str (i : Z) : Py.int (Py.str i) = Some i.
Proof.
  unfold Py.int, Py.str. rewrite NilZero.isi.
  - simpl. by rewrite DecimalZ.of_to.
  - destruct i as [|p|p]; simpl; try done.
    intros [= H]. by apply (Unsigned.to_uint_nonnil p).
  - destruct i as [|p|p]; simpl; try done.
    intros [= H]. by apply (Unsigned.to_uint_nonnil p).
Qed.

Lemma splitext_numeral (x : string) :
  x <> "" ->
  Py.str_exists (fun a => negb (is_numeral_char a)) x = false ->
  Py.splitext (x ++ ".mp3") = (x, ".mp3").
Proof.
  intros Hne Hnum. unfold Py.splitext.
  rewrite (rfind_app_None "/" x ".mp3") by reflexivity.
  rewrite (rfind_absent is_numeral_char "/" x) by done.
  rewrite (rfind_app_Some "." x ".mp3" 0) by reflexivity.
  rewrite Nat.add_0_r, Nat.sub_0_r.
  change (Py.str_drop 0 (x ++ ".mp3")) with (x ++ ".mp3")%string.
  rewrite str_take_app, str_drop_app.
  replace (Py.str_exists _ x) with true; [done|].
  destruct x as [|a x]; [done|]. simpl in *.
  apply orb_false_iff in Hnum as [Ha _].
  destruct (Ascii.eqb_spec a ".") as [->|]; [discriminate | done].
Qed.

(** The key of the sort recovers the index a segment file was named
    by. *)
Lemma segment_index_file_name (i : Z) :
  segment_index (segment_file_name i) = Some i.
Proof.
  unfold segment_index, segment_file_name.
  destruct (str_numeral i) as [Hne Hnum].
  rewrite splitext_numeral by done. apply int_str.
Qed.

End SegmentNames.

(** ** Sorting by key *)

Section Sorted.

Context {A : Type} (key : A -> option Z) (name : Z -> A).
Hypothesis key_name : forall i, key (name i) = Some i.

#[local] Instance Z_le_antisymm : AntiSymm (=) Z.le.
Proof. intros x y ? ?. lia. Qed.

Lemma insert_by_key_perm (k : Z) (x : A) (l : list (Z * A)) :
  Py.insert_by_key k x l ≡ₚ (k, x) :: l.
Proof.
  induction l as [|[k' y] l IH]; simpl; [done|].
  destruct (k <=? k'); [done|]. rewrite IH. apply Permutation_swap.
Qed.

Lemma sort_decorated_perm (l : list (Z * A)) : Py.sort_decorated l ≡ₚ l.
Proof.
  induction l as [|[k x] l IH]; simpl; [done|].
  by rewrite insert_by_key_perm, IH.
Qed.

Lemma insert_by_key_sorted (k : Z) (x : A) (l : list (Z * A)) :
  StronglySorted by_key l -> StronglySorted by_key (Py.insert_by_key k x l).
Proof.
  induction 1 as [|[k' y] l Hsorted IH Hall]; simpl.
  - repeat constructor.
  - destruct (Z.leb_spec k k').
    + constructor; [by constructor|].
      constructor; [done|].
      eapply Forall_impl; [exact Hall|]. unfold by_key; simpl. intros; lia.
    + constructor; [done|].
      rewrite insert_by_key_perm. constructor; [|done].
      unfold by_key; simpl. lia.
Qed.

Lemma sort_decorated_sorted (l : list (Z * A)) :
  StronglySorted by_key (Py.sort_decorated l).
Proof.
  induction l as [|[k x] l IH]; simpl; [constructor|].
  by apply insert_by_key_sorted.
Qed.

Lemma mapM_decorate (l : list A) :
  Forall (fun x => is_Some (key x)) l ->
  mapM (fun x => k ← key x; Some (k, x)) l
  = Some (map (fun x => (default 0 (key x), x)) l).
Proof.
  induction 1 as [|x l [k Hk] Hall IH]; [done|].
  simpl. rewrite IH, Hk. done.
Qed.

(** Sorting a listing of files named by the indices [idxs], in whatever
    order it comes, gives the files in the order of their indices. *)
Lemma sorted_by_key (idxs : list Z) (l : list A) :
  StronglySorted Z.le idxs ->
  l ≡ₚ map name idxs ->
  Py.sorted key l = Some (map name idxs).
Proof.
  intros Hinc Hperm. unfold Py.sorted.
  assert (Hall : Forall (fun x => exists i, x = name i) l).
  { rewrite Hperm. apply Forall_forall. intros x (i & -> & _)%list_elem_of_fmap.
    eauto. }
  rewrite mapM_decorate.
  2:{ eapply Forall_impl; [exact Hall|]. intros x [i ->]. rewrite key_name. eauto. }
  simpl. f_equal.
  set (dec := map (fun x => (default 0 (key x), x)) l).
  pose proof (sort_decorated_perm dec) as Hsd.
  pose proof (sort_decorated_sorted dec) as Hss.
  assert (Hnames : Forall (fun p : Z * A => p.2 = name p.1) (Py.sort_decorated dec)).
  { rewrite Hsd. unfold dec. apply Forall_fmap.
    eapply Forall_impl; [exact Hall|]. intros x [i ->]; simpl.
    by rewrite key_name. }
  assert (Hkeys : (Py.sort_decorated dec).*1 = idxs).
  { apply (StronglySorted_unique Z.le).
    - eapply StronglySorted_fmap; [|exact Hss]. done.
    - done.
    - rewrite Hsd. unfold dec. rewrite <- list_fmap_compose.
      rewrite Hperm, <- list_fmap_compose.
      rewrite (list_fmap_ext _ id idxs); [by rewrite list_fmap_id|].
      intros _ i _; simpl. by rewrite key_name. }
  rewrite <- Hkeys. change (map name) with (fmap (M := list) name).
  rewrite <- list_fmap_compose.
  by apply Forall_fmap_ext_1.
Qed.

End Sorted.

(** ** File pipeline *)

Section FilePipeline.

Variable env : Collaborators.

Hypothesis listdir_perm : forall names, listdir env names ≡ₚ names.

Lemma export_all_spec (segments : list (Z * AudioSegment)) (w : World) :
  export_all env segments w
  = (Ok (map (fun s => negb (export_fails env s.1)) segments),
     {| calls := calls w; opens := opens w;
        scratch := scratch w
                   ++ map segment_file (omap (left_by_export env) segments);
        unique_tracks := unique_tracks w; seen_tracks := seen_tracks w;
        trace := trace w |}).
Proof.
  revert w. induction segments as [|[idx seg] rest IH]; intros w.
  - simpl. unfold ret. rewrite app_nil_r. by destruct w.
  - simpl export_all. unfold bind at 1, export at 1.
    cbn [omap list_omap]. unfold left_by_export at 1. cbn [fst snd].
    fold (omap (left_by_export env) rest).
    destruct (export_fails env idx) eqn:Hf;
      [destruct (export_leaves_file env idx)|];
      unfold bind; rewrite IH; unfold ret, create_file; simpl; rewrite Hf;
      simpl; rewrite <- ?app_assoc; reflexivity.
Qed.

Lemma forallb_id_map {X} (f : X -> bool) (l : list X) :
  forallb id (map f l) = forallb f l.
Proof. induction l as [|x l IH]; simpl; [done | by rewrite IH]. Qed.

Lemma segment_audio_spec (audio_file output_directory : string) (w : World) :
  segment_audio env audio_file output_directory w
  = (Ok tt,
     {| calls := calls w; opens := opens w;
        scratch := scratch w ++ map segment_file (materialized env audio_file);
        unique_tracks := unique_tracks w; seen_tracks := seen_tracks w;
        trace := trace w ++ (if segmenting_failed env audio_file
                             then [LogError (MsgSegmentingFailed audio_file)]
                             else []) |}).
Proof.
  unfold segment_audio, try_except, bind, audio_from_file, materialized,
    segmenting_failed.
  destruct (from_file env audio_file) as [audio|]; simpl.
  - fold (numbered_segments audio). rewrite export_all_spec.
    rewrite forallb_id_map.
    destruct (forallb _ (numbered_segments audio)); simpl.
    + unfold ret. by rewrite app_nil_r.
    + reflexivity.
  - by rewrite app_nil_r.
Qed.

Lemma materialized_indices_sorted (audio_file : string) :
  StronglySorted Z.le (materialized env audio_file).*1.
Proof.
  unfold materialized.
  destruct (from_file env audio_file) as [audio|]; [|constructor].
  unfold numbered_segments. generalize (split_segments audio) 1.
  intros l. induction l as [|x l IH]; intros start; [constructor|].
  assert (Hge : Forall (Z.le start)
            (omap (left_by_export env) (Py.enumerate l (start + 1))).*1).
  { apply Forall_forall. intros i Hi.
    apply list_elem_of_fmap in Hi as ([i' seg] & -> & Hin).
    apply list_elem_of_omap in Hin as ([i'' seg'] & Hin & Hleft).
    apply list_elem_of_lookup in Hin as [k Hk].
    apply enumerate_lookup in Hk as [-> _].
    unfold left_by_export in Hleft. cbn [fst snd] in Hleft.
    repeat case_match; simplify_eq; simpl; lia. }
  cbn [Py.enumerate omap list_omap].
  fold (omap (left_by_export env) (Py.enumerate l (start + 1))).
  destruct (left_by_export env (start, x)) as [[i c]|] eqn:Hleft; [|apply IH].
  assert (i = start) as ->.
  { unfold left_by_export in Hleft. cbn [fst snd] in Hleft.
    repeat case_match; by simplify_eq. }
  cbn [fmap list_fmap fst]. constructor; [apply IH | done].
Qed.

Lemma tmp_files_sorted (audio_file : string) :
  Py.sorted segment_index
    (listdir env (map segment_file (materialized env audio_file)).*1)
  = Some (segment_files env audio_file).
Proof.
  apply (sorted_by_key segment_index segment_file_name).
  - apply segment_index_file_name.
  - apply materialized_indices_sorted.
  - rewrite listdir_perm. unfold segment_file.
    change (map ?f ?l) with (f <$> l). by rewrite <- !list_fmap_compose.
Qed.

Lemma processing_msg_logged (audio_file : string) (file_index total_files : Z) :
  (if 2 <? total_files
   then log_info (MsgProcessingFileOf file_index total_files audio_file)
   else log_info (MsgProcessingFile audio_file))
  = log_info (processing_msg audio_file file_index total_files).
Proof. unfold processing_msg. by destruct (2 <? total_files). Qed.

Lemma log_tracks_spec (tracks : list (Z * string)) (w : World) :
  log_tracks tracks w
  = (Ok tt,
     {| calls := calls w; opens := opens w; scratch := scratch w;
        unique_tracks := unique_tracks w; seen_tracks := seen_tracks w;
        trace := trace w ++ map (fun t => LogInfo (MsgTrack t.1 t.2)) tracks |}).
Proof.
  revert w. induction tracks as [|[i t] rest IH]; intros w; simpl.
  - unfold ret. rewrite app_nil_r. by destruct w.
  - unfold bind, log_info, emit. rewrite IH. simpl. by rewrite <- app_assoc.
Qed.

(** A file whose header cannot be written is given up. *)
Lemma process_audio_file_header_failed (audio_file output_filename : string)
    (file_index total_files : Z) (w : World) :
  open_fails env (opens w) output_filename = true ->
  process_audio_file env audio_file output_filename file_index total_files w
  = (Ok tt, header_failed audio_file file_index total_files w).
Proof.
  intros Hfail. unfold process_audio_file. rewrite processing_msg_logged.
  unfold bind, try_except, append_text, new_track_set, log_info, log_error,
    emit, ret, header_failed; simpl.
  rewrite Hfail. simpl. rewrite <- ?app_assoc. reflexivity.
Qed.

(** A file whose header is written goes through segmentation and
    recognition, whatever happens there, and ends with the separator
    line, the summary and the closing message. *)
Lemma process_audio_file_run (audio_file output_filename : string)
    (file_index total_files : Z) (w : World) :
  open_fails env (opens w) output_filename = false ->
  exists w3 : World,
    segments_run env (tmp_dir env)
      (Z.of_nat (length (segment_files env audio_file))) output_filename
      (Py.enumerate (segment_files env audio_file) 1)
      (before_recognition env audio_file output_filename file_index
         total_files w)
      w3 /\
    process_audio_file env audio_file output_filename file_index total_files w
    = (Ok tt, after_recognition env audio_file output_filename w3).
Proof.
  intros Hok.
  destruct (recognize_loop_run env (tmp_dir env)
              (Z.of_nat (length (segment_files env audio_file))) output_filename
              (Py.enumerate (segment_files env audio_file) 1)
              (before_recognition env audio_file output_filename file_index
                 total_files w)) as (w3 & Hloop & Hrun).
  exists w3. split; [done|].
  unfold process_audio_file. rewrite processing_msg_logged.
  unfold bind at 1, log_info at 1, emit at 1.
  unfold bind at 1, new_track_set at 1.
  unfold bind at 1, try_except at 1, bind at 1, append_text at 1.
  cbn [opens]. rewrite Hok.
  unfold emit at 1, ret at 1. cbn [negb].
  unfold bind at 1, with_temporary_directory at 1.
  unfold bind at 1, clear_scratch at 1.
  unfold bind at 1, log_info at 1, emit at 1.
  unfold bind at 1. rewrite segment_audio_spec.
  unfold bind at 1, log_info at 1, emit at 1.
  unfold bind at 1, os_listdir at 1.
  cbn [calls opens scratch unique_tracks seen_tracks trace app].
  rewrite tmp_files_sorted.
  unfold bind at 1, ret at 1.
  unfold _recognize_segments.
  match goal with
  | |- context [recognize_loop _ _ _ _ _ ?w0] =>
      replace w0 with (before_recognition env audio_file output_filename
                         file_index total_files w)
  end.
  2:{ unfold before_recognition, prologue_events, header_line. f_equal.
      rewrite <- !app_assoc. reflexivity. }
  rewrite Hloop.
  unfold clear_scratch at 1. cbn [snd].
  unfold bind at 1, try_except at 1, append_text at 1.
  cbn [calls opens scratch unique_tracks seen_tracks trace].
  unfold after_recognition, epilogue_events, summary_events, get_unique_tracks.
  destruct (open_fails env (opens w3) output_filename);
    unfold bind, log_error, log_info, emit, ret, is_OSError;
    cbv beta iota;
    cbn [calls opens scratch unique_tracks seen_tracks trace];
    (destruct (bool_decide (unique_tracks w3 = []));
     [ f_equal; f_equal;
       cbn [calls opens scratch unique_tracks seen_tracks trace app];
       rewrite <- ?app_assoc; reflexivity
     | rewrite log_tracks_spec; f_equal; f_equal;
       cbn [calls opens scratch unique_tracks seen_tracks trace app];
       rewrite <- ?app_assoc; reflexivity ]).
Qed.

Lemma summary_events_observed (tracks : list string) :
  appends (summary_events tracks) = [] /\
  requests (summary_events tracks) = [] /\
  tracklist (summary_events tracks) = Py.enumerate tracks 1.
Proof.
  unfold summary_events. case_bool_decide as Hnil; [by subst tracks|].
  assert (Hitems : forall l : list (Z * string),
             appends (map (fun t => LogInfo (MsgTrack t.1 t.2)) l) = [] /\
             requests (map (fun t => LogInfo (MsgTrack t.1 t.2)) l) = [] /\
             tracklist (map (fun t => LogInfo (MsgTrack t.1 t.2)) l) = l).
  { induction l as [|[i t] l (IH1 & IH2 & IH3)]; [done|].
    split_and!; [exact IH1 | exact IH2 |].
    change (tracklist (map (fun t => LogInfo (MsgTrack t.1 t.2)) ((i, t) :: l)))
      with ((i, t) :: tracklist (map (fun t => LogInfo (MsgTrack t.1 t.2)) l)).
    by rewrite IH3. }
  destruct (Hitems (Py.enumerate tracks 1)) as (H1 & H2 & H3).
  split_and!.
  - change (appends (?e :: ?l)) with (appends l).
    by rewrite appends_app, H1.
  - change (requests (?e :: ?l)) with (requests l).
    by rewrite requests_app, H2.
  - change (tracklist (?e :: ?l)) with (tracklist l).
    rewrite tracklist_app, H3. simpl. by rewrite app_nil_r.
Qed.

Lemma track_line_inj (s t : string) : track_line s = track_line t -> s = t.
Proof.
  unfold track_line. revert t.
  induction s as [|a s IH]; intros [|b t]; simpl; intros H; try done.
  - injection H as _ H. by destruct t.
  - injection H as _ H. by destruct s.
  - injection H as -> H. f_equal. by apply IH.
Qed.

Lemma prologue_events_observed (audio_file output_filename : string)
    (file_index total_files : Z) :
  let evs := prologue_events env audio_file output_filename file_index
               total_files in
  appends evs = [(output_filename, header_line audio_file)] /\
  requests evs = [] /\
  tracklist evs = [].
Proof.
  unfold prologue_events, processing_msg. cbv zeta.
  destruct (segmenting_failed env audio_file), (2 <? total_files);
    split_and!; reflexivity.
Qed.

Lemma epilogue_events_observed (audio_file output_filename : string)
    (w3 : World) :
  let evs := epilogue_events env audio_file output_filename w3 in
  appends evs = (if open_fails env (opens w3) output_filename then []
                 else [(output_filename, newline)]) /\
  requests evs = [] /\
  tracklist evs = Py.enumerate (unique_tracks w3) 1.
Proof.
  unfold epilogue_events. cbv zeta.
  destruct (summary_events_observed (unique_tracks w3)) as (Ha & Hr & Ht).
  rewrite !appends_app, !requests_app, !tracklist_app, Ha, Hr, Ht.
  destruct (open_fails env (opens w3) output_filename); simpl;
    by rewrite ?app_nil_r.
Qed.

Lemma prologue_events_progress (audio_file output_filename : string)
    (file_index total_files : Z) :
  progress (prologue_events env audio_file output_filename file_index
              total_files) = [].
Proof.
  unfold prologue_events, processing_msg.
  by destruct (segmenting_failed env audio_file), (2 <? total_files).
Qed.

Lemma epilogue_events_progress (audio_file output_filename : string)
    (w3 : World) :
  progress (epilogue_events env audio_file output_filename w3) = [].
Proof.
  unfold epilogue_events, summary_events. rewrite !progress_app.
  assert (Hitems : forall l : list (Z * string),
             progress (map (fun t => LogInfo (MsgTrack t.1 t.2)) l) = []).
  { induction l as [|[i t] l IH]; [done | exact IH]. }
  destruct (open_fails env (opens w3) output_filename);
    case_bool_decide; simpl; try done;
    by rewrite progress_app, Hitems.
Qed.

(** The run of a file whose header is written, with what the
    sequencer adds to the trace. *)
Lemma process_audio_file_ok (audio_file output_filename : string)
    (file_index total_files : Z) (w : World) :
  open_fails env (opens w) output_filename = false ->
  exists (w3 : World) (sevs : list Event) (counts : list nat),
    process_audio_file env audio_file output_filename file_index total_files w
    = (Ok tt, after_recognition env audio_file output_filename w3) /\
    trace (after_recognition env audio_file output_filename w3)
    = trace w
      ++ prologue_events env audio_file output_filename file_index total_files
      ++ sevs
      ++ epilogue_events env audio_file output_filename w3 /\
    unique_tracks w3 = first_seen (found (progress sevs)) /\
    length (progress sevs) = length (segment_files env audio_file) /\
    Forall (fun s => s = "Not found" \/ answers env s) (progress sevs) /\
    sublist (appends sevs)
      (map (fun t => (output_filename, track_line t)) (unique_tracks w3)) /\
    ((forall n, open_fails env n output_filename = false) ->
     appends sevs
     = map (fun t => (output_filename, track_line t)) (unique_tracks w3)) /\
    tracklist sevs = [] /\
    requests sevs
    = concat (zip_with replicate counts
                (map (Py.path_join (tmp_dir env)) (segment_files env audio_file))) /\
    length counts = length (segment_files env audio_file) /\
    Forall (fun c => 0 < c <= 3)%nat counts.
Proof.
  intros Hok.
  destruct (process_audio_file_run audio_file output_filename file_index
              total_files w Hok) as (w3 & Hrun & Hrun_eq).
  destruct (segments_run_events _ _ _ _ _ _ _ Hrun)
    as (sevs & new & counts & Htr & _ & Hu & Hpl & Hpr & Hsub & Hall & Htl
        & Hreq & Hlen & Hcnt).
  destruct (segments_run_unique_tracks _ _ _ _ _ _ _ Hrun [])
    as (sevs' & Htr' & Huniq & _); [done | done |].
  rewrite Htr in Htr'. apply app_inv_head in Htr'. subst sevs'.
  simpl in Hu, Huniq. subst new.
  rewrite enumerate_length in Hpl, Hlen. rewrite enumerate_snd in Hreq.
  exists w3, sevs, counts. split_and!; try done.
  cbn [trace after_recognition]. rewrite Htr.
  cbn [trace before_recognition]. by rewrite <- !app_assoc.
Qed.

(** Whatever happens to a file, [process_audio_file] returns: the
    driver loop goes on with the next file. *)
Lemma process_audio_file_returns (audio_file output_filename : string)
    (file_index total_files : Z) (w : World) :
  exists w' : World,
    process_audio_file env audio_file output_filename file_index total_files w
    = (Ok tt, w').
Proof.
  destruct (open_fails env (opens w) output_filename) eqn:Hh.
  - rewrite process_audio_file_header_failed by done. eauto.
  - destruct (process_audio_file_run audio_file output_filename file_index
                total_files w Hh) as (w3 & _ & ->).
    eauto.
Qed.

(** C4: the output artifact receives, for a file, only the header
    line, a line per track of the file's track list and the blank
    separator line (all of them when no write fails); the line of the
    sentinel ["Not found"] is never among them, whatever the results of
    the segments are; when every segment comes back with the sentinel
    the track list is empty, so that the section is the header and the
    blank line only. *)
Theorem output_never_holds_sentinel (audio_file output_filename : string)
    (file_index total_files : Z) (w : World) :
  exists (w' : World) (evs : list Event),
    process_audio_file env audio_file output_filename file_index total_files w
    = (Ok tt, w') /\
    trace w' = trace w ++ evs /\
    sublist (appends evs)
      (file_section output_filename audio_file (unique_tracks w')) /\
    ((forall n, open_fails env n output_filename = false) ->
     appends evs = file_section output_filename audio_file (unique_tracks w')) /\
    NoDup (unique_tracks w') /\
    ~ "Not found" ∈ unique_tracks w' /\
    (forall file text,
        (file, text) ∈ appends evs -> text ≠ track_line "Not found") /\
    Forall (fun s => s = "Not found" \/ answers env s) (progress evs) /\
    (Forall (fun s => s = "Not found") (progress evs) ->
     unique_tracks w' = [] /\
     file_section output_filename audio_file (unique_tracks w')
     = [(output_filename, header_line audio_file); (output_filename, newline)]).
Proof.
  assert (Hlines : forall (tracks : list string) (l : list (string * string)),
             "Not found" ∉ tracks ->
             sublist l (file_section output_filename audio_file tracks) ->
             forall file text, (file, text) ∈ l -> text ≠ track_line "Not found").
  { intros tracks l Hnf Hsub file text Hin.
    eapply elem_of_sublist in Hin; [|exact Hsub].
    unfold file_section in Hin.
    rewrite !elem_of_app, !list_elem_of_singleton, list_elem_of_fmap in Hin.
    destruct Hin as [[= _ ->] | [(t & [= _ ->] & Ht) | [= _ ->]]].
    - discriminate.
    - intros Heq%track_line_inj. by subst t.
    - discriminate. }
  destruct (open_fails env (opens w) output_filename) eqn:Hh.
  - rewrite process_audio_file_header_failed by done.
    eexists _, _. split; [reflexivity|]. split; [reflexivity|].
    split_and!.
    + apply sublist_nil_l.
    + intros Hok. congruence.
    + constructor.
    + apply not_elem_of_nil.
    + intros file text Hin. by apply not_elem_of_nil in Hin.
    + unfold processing_msg. destruct (2 <? total_files); constructor.
    + done.
  - destruct (process_audio_file_ok audio_file output_filename file_index
                total_files w Hh)
      as (w3 & sevs & counts & -> & Htr & Hu & _ & Hpr & Hsub & Hall & _).
    destruct (prologue_events_observed audio_file output_filename file_index
                total_files) as (Hpa & _ & _).
    destruct (epilogue_events_observed audio_file output_filename w3)
      as (Hea & _ & _).
    assert (Hnf : "Not found" ∉ unique_tracks w3).
    { rewrite Hu, elem_of_first_seen. apply not_found_not_in_found. }
    assert (Happ : sublist
              (appends
                 (prologue_events env audio_file output_filename file_index
                    total_files ++ sevs
                  ++ epilogue_events env audio_file output_filename w3))
              (file_section output_filename audio_file (unique_tracks w3))).
    { rewrite !appends_app, Hpa, Hea. unfold file_section.
      apply sublist_app; [done|]. apply sublist_app; [done|].
      destruct (open_fails env (opens w3) output_filename);
        [apply sublist_nil_l | done]. }
    eexists _, _. split; [reflexivity|]. split; [exact Htr|].
    rewrite !progress_app, prologue_events_progress, epilogue_events_progress,
      app_nil_r.
    cbn [unique_tracks after_recognition app].
    split_and!.
    + exact Happ.
    + intros Hok. rewrite !appends_app, Hpa, Hea, (Hall Hok), Hok. reflexivity.
    + rewrite Hu. apply NoDup_first_seen.
    + exact Hnf.
    + by apply (Hlines (unique_tracks w3)).
    + exact Hpr.
    + intros Hnone.
      assert (Hempty : unique_tracks w3 = []).
      { rewrite Hu. replace (found (progress sevs)) with (@nil string); [done|].
        symmetry. unfold found. clear -Hnone.
        induction Hnone as [|s l -> _ IH]; [done|].
        by rewrite filter_cons_False by naive_solver. }
      by rewrite Hempty.
Qed.

Lemma process_each_returns (files : list (Z * string))
    (output_filename : string) (total_files : Z) (w : World) :
  exists w' : World,
    process_each env files output_filename total_files w = (Ok tt, w').
Proof.
  revert w. induction files as [|[idx file_name] rest IH]; intros w.
  - by exists w.
  - destruct (process_audio_file_returns
                (Py.path_join DOWNLOADS_DIR file_name) output_filename idx
                total_files w) as (w1 & H1).
    destruct (IH w1) as (w' & H'). exists w'.
    simpl. by rewrite (bind_ok _ _ _ _ _ H1).
Qed.

Section WritesSucceed.

Variable output_filename : string.
Hypothesis writes_succeed : forall n, open_fails env n output_filename = false.

Lemma process_audio_file_section (audio_file : string)
    (file_index total_files : Z) (w : World) :
  exists (w' : World) (evs : list Event),
    process_audio_file env audio_file output_filename file_index total_files w
    = (Ok tt, w') /\
    trace w' = trace w ++ evs /\
    appends evs = file_section output_filename audio_file (unique_tracks w') /\
    tracklist evs = Py.enumerate (unique_tracks w') 1.
Proof.
  destruct (process_audio_file_ok audio_file output_filename file_index
              total_files w (writes_succeed _))
    as (w3 & sevs & counts & -> & Htr & _ & _ & _ & _ & Hall & Htl & _).
  destruct (prologue_events_observed audio_file output_filename file_index
              total_files) as (Hpa & _ & Hpt).
  destruct (epilogue_events_observed audio_file output_filename w3)
    as (Hea & _ & Het).
  eexists _, _. split; [reflexivity|]. split; [exact Htr|]. split.
  - rewrite !appends_app, Hpa, Hea, (Hall writes_succeed), writes_succeed.
    reflexivity.
  - by rewrite !tracklist_app, Hpt, Het, Htl.
Qed.

Lemma process_each_sections (files : list (Z * string)) (total_files : Z)
    (w : World) :
  exists (w' : World) (evs : list Event) (summaries : list (list string)),
    process_each env files output_filename total_files w = (Ok tt, w') /\
    trace w' = trace w ++ evs /\
    length summaries = length files /\
    appends evs
    = concat (zip_with
                (fun file_name tracks =>
                   file_section output_filename
                     (Py.path_join DOWNLOADS_DIR file_name) tracks)
                files.*2 summaries) /\
    tracklist evs = concat (map (fun tracks => Py.enumerate tracks 1) summaries).
Proof.
  revert w. induction files as [|[idx file_name] rest IH]; intros w.
  - exists w, [], []. by rewrite app_nil_r.
  - destruct (process_audio_file_section
                (Py.path_join DOWNLOADS_DIR file_name) idx total_files w)
      as (w1 & evs1 & H1 & Htr1 & Ha1 & Ht1).
    destruct (IH w1) as (w' & evs & summaries & H' & Htr & Hlen & Ha & Ht).
    exists w', (evs1 ++ evs), (unique_tracks w1 :: summaries).
    split_and!.
    + simpl. by rewrite (bind_ok _ _ _ _ _ H1).
    + by rewrite Htr, Htr1, <- app_assoc.
    + simpl. by rewrite Hlen.
    + rewrite appends_app, Ha1, Ha. reflexivity.
    + rewrite tracklist_app, Ht1, Ht. reflexivity.
Qed.

(** C8: when the writes to the output artifact succeed, the track
    lines appended for a file are the lines of the file's list of
    unique tracks, element for element and in the same order, between
    the header line and the blank line, and the logged summary lists
    the same tracks; over a batch, the texts appended are the sections
    of the files one after the other, and the logged summaries are
    those of the same track lists. *)
Theorem output_sections_match_summaries :
  (forall (audio_file : string) (file_index total_files : Z) (w : World),
      exists (w' : World) (evs : list Event),
        process_audio_file env audio_file output_filename file_index
          total_files w = (Ok tt, w') /\
        trace w' = trace w ++ evs /\
        appends evs
        = file_section output_filename audio_file (unique_tracks w') /\
        tracklist evs = Py.enumerate (unique_tracks w') 1) /\
  (forall (mp3_files : list string) (w : World),
      exists (w' : World) (evs : list Event) (summaries : list (list string)),
        process_mp3_files env mp3_files output_filename w = (Ok tt, w') /\
        trace w' = trace w ++ evs /\
        length summaries = length mp3_files /\
        appends evs
        = concat (zip_with
                    (fun file_name tracks =>
                       file_section output_filename
                         (Py.path_join DOWNLOADS_DIR file_name) tracks)
                    mp3_files summaries) /\
        tracklist evs
        = concat (map (fun tracks => Py.enumerate tracks 1) summaries)).
Proof.
  split; [apply process_audio_file_section|].
  intros mp3_files w. unfold process_mp3_files.
  destruct (process_each_sections (Py.enumerate mp3_files 1)
              (Z.of_nat (length mp3_files)) w)
    as (w1 & evs & summaries & H1 & Htr & Hlen & Ha & Ht).
  rewrite enumerate_length in Hlen. rewrite enumerate_snd in Ha.
  eexists _, (evs ++ [LogInfo MsgAllProcessed;
                      LogInfo (MsgResultsSaved output_filename)]), summaries.
  split_and!.
  - rewrite (bind_ok _ _ _ _ _ H1). reflexivity.
  - simpl. rewrite Htr, <- !app_assoc. reflexivity.
  - done.
  - by rewrite appends_app, Ha, app_nil_r.
  - by rewrite tracklist_app, Ht, app_nil_r.
Qed.

End WritesSucceed.

Lemma StronglySorted_lt_le (l : list Z) :
  StronglySorted Z.lt l -> StronglySorted Z.le l.
Proof.
  induction 1 as [|x l Hs IH Hall]; constructor; [done|].
  eapply Forall_impl; [exact Hall|]. intros; simpl in *; lia.
Qed.

Lemma all_exported (segments : list (Z * AudioSegment)) :
  (forall idx, export_fails env idx = false) ->
  omap (left_by_export env) segments
  = map (fun s => (s.1, Some s.2)) segments.
Proof.
  intros Hexp. induction segments as [|x l IH]; [done|].
  cbn [omap list_omap map]. fold (omap (left_by_export env) l).
  unfold left_by_export at 1. by rewrite Hexp, IH.
Qed.

Lemma segment_files_materialized (audio_file : string) (audio : AudioSegment) :
  from_file env audio_file = Some audio ->
  (forall idx, export_fails env idx = false) ->
  segment_files env audio_file
  = map segment_file_name
      (seqZ 1 (Z.of_nat (length (split_segments audio)))).
Proof.
  intros Hdec Hexp. unfold segment_files, materialized. rewrite Hdec. f_equal.
  rewrite (all_exported _ Hexp).
  change (map ?f ?l) with (f <$> l). rewrite <- list_fmap_compose.
  apply enumerate_fst.
Qed.

(** C7: a listing of segment files named by their index, in whatever
    order the directory gives it, is sorted by the number in the name
    (["10.mp3"] comes after ["2.mp3"]); the sequencer asks for the files
    of its list one after the other, in the order of the list; so for a
    buffer whose segments are all in place the indices asked for are
    [1, 2, ..., N], each one once, in increasing order. *)
Theorem segments_recognized_in_index_order :
  (forall (idxs : list Z) (listing : list string),
      StronglySorted Z.lt idxs ->
      listing ≡ₚ map segment_file_name idxs ->
      Py.sorted segment_index listing = Some (map segment_file_name idxs)) /\
  Py.sorted segment_index ["10.mp3"; "2.mp3"; "1.mp3"]
  = Some ["1.mp3"; "2.mp3"; "10.mp3"] /\
  (forall (tmp_dir : string) (tmp_files : list string) (total_segments : Z)
          (output_filename : string) (w : World),
      exists (w' : World) (evs : list Event) (counts : list nat),
        _recognize_segments env tmp_dir tmp_files total_segments
          output_filename w = (Ok tt, w') /\
        trace w' = trace w ++ evs /\
        requests evs
        = concat (zip_with replicate counts
                    (map (Py.path_join tmp_dir) tmp_files)) /\
        length counts = length tmp_files /\
        Forall (fun c => 0 < c <= 3)%nat counts) /\
  (forall (audio_file : string) (audio : AudioSegment)
          (output_filename : string) (file_index total_files : Z) (w : World),
      from_file env audio_file = Some audio ->
      (forall idx, export_fails env idx = false) ->
      open_fails env (opens w) output_filename = false ->
      exists (w' : World) (evs : list Event) (counts : list nat),
        process_audio_file env audio_file output_filename file_index
          total_files w = (Ok tt, w') /\
        trace w' = trace w ++ evs /\
        requests evs
        = concat (zip_with replicate counts
                    (map (fun idx =>
                            Py.path_join (tmp_dir env) (segment_file_name idx))
                       (seqZ 1 (Z.of_nat (length (split_segments audio)))))) /\
        length counts = length (split_segments audio) /\
        Forall (fun c => 0 < c <= 3)%nat counts).
Proof.
  split_and!.
  - intros idxs listing Hinc Hperm.
    apply (sorted_by_key segment_index segment_file_name);
      [apply segment_index_file_name | by apply StronglySorted_lt_le | done].
  - reflexivity.
  - intros tmp_dir tmp_files total_segments output_filename w.
    unfold _recognize_segments.
    destruct (recognize_loop_run env tmp_dir total_segments output_filename
                (Py.enumerate tmp_files 1) w) as (w' & Hloop & Hrun).
    destruct (segments_run_events _ _ _ _ _ _ _ Hrun)
      as (evs & new & counts & Htr & _ & _ & _ & _ & _ & _ & _ & Hreq & Hlen
          & Hcnt).
    rewrite enumerate_snd in Hreq. rewrite enumerate_length in Hlen.
    by exists w', evs, counts.
  - intros audio_file audio output_filename file_index total_files w
      Hdec Hexp Hh.
    destruct (process_audio_file_ok audio_file output_filename file_index
                total_files w Hh)
      as (w3 & sevs & counts & -> & Htr & _ & _ & _ & _ & _ & _ & Hreq & Hlen
          & Hcnt).
    destruct (prologue_events_observed audio_file output_filename file_index
                total_files) as (_ & Hpr & _).
    destruct (epilogue_events_observed audio_file output_filename w3)
      as (_ & Her & _).
    rewrite (segment_files_materialized _ _ Hdec Hexp) in Hreq, Hlen.
    eexists _, _, counts. split; [reflexivity|]. split; [exact Htr|].
    split_and!.
    + rewrite !requests_app, Hpr, Her, Hreq, app_nil_r. simpl.
      by rewrite map_map.
    + rewrite Hlen, length_map, length_seqZ. lia.
    + done.
Qed.

(** C5, amended: a file that cannot be decoded has its failure logged
    by [segment_audio]; its pipeline is not aborted but runs to its end
    over an empty scratch directory: no request is made to the
    recognition service, the track list stays empty, no track line and
    no summary is produced, the blank separator line is still appended
    and the file is reported as processed (when the header cannot be
    written, the file is given up before segmentation); the driver loop
    goes on with the next file. *)
Theorem decode_failure_logged_pipeline_continues
    (audio_file output_filename : string) (file_index total_files : Z)
    (w : World) :
  from_file env audio_file = None ->
  exists w' : World,
    process_audio_file env audio_file output_filename file_index total_files w
    = (Ok tt, w') /\
    calls w' = calls w /\
    unique_tracks w' = [] /\
    trace w'
    = trace w
      ++ (if open_fails env (opens w) output_filename
          then [LogInfo (processing_msg audio_file file_index total_files);
                LogError (MsgHeaderError audio_file)]
          else [LogInfo (processing_msg audio_file file_index total_files);
                Append output_filename (header_line audio_file);
                LogInfo MsgSegmenting;
                LogError (MsgSegmentingFailed audio_file);
                LogInfo MsgRecognizing;
                (if open_fails env (S (opens w)) output_filename
                 then LogError (MsgEmptyLineError audio_file)
                 else Append output_filename newline);
                LogInfo (MsgProcessed audio_file)]) /\
    (forall (file_name : string) (rest : list (Z * string)),
        audio_file = Py.path_join DOWNLOADS_DIR file_name ->
        process_each env ((file_index, file_name) :: rest) output_filename
          total_files w
        = process_each env rest output_filename total_files w').
Proof.
  intros Hdec.
  assert (Hnext : forall w' : World,
             process_audio_file env audio_file output_filename file_index
               total_files w = (Ok tt, w') ->
             forall (file_name : string) (rest : list (Z * string)),
               audio_file = Py.path_join DOWNLOADS_DIR file_name ->
               process_each env ((file_index, file_name) :: rest)
                 output_filename total_files w
               = process_each env rest output_filename total_files w').
  { intros w' Hw' file_name rest ->. simpl.
    by rewrite (bind_ok _ _ _ _ _ Hw'). }
  destruct (open_fails env (opens w) output_filename) eqn:Hh.
  - pose proof (process_audio_file_header_failed audio_file output_filename
                  file_index total_files w Hh) as Hrun.
    exists (header_failed audio_file file_index total_files w).
    split_and!; [done | done | done | done | by apply Hnext].
  - destruct (process_audio_file_run audio_file output_filename file_index
                total_files w Hh) as (w3 & Hrun & Heq).
    assert (Hfiles : segment_files env audio_file = []).
    { unfold segment_files, materialized. by rewrite Hdec. }
    rewrite Hfiles in Hrun. simpl in Hrun. inversion Hrun; subst.
    eexists. split; [exact Heq|].
    split_and!; [done | done | | by apply Hnext].
    unfold after_recognition, before_recognition, prologue_events,
      epilogue_events, summary_events, segmenting_failed.
    rewrite Hdec. simpl. rewrite <- !app_assoc. reflexivity.
Qed.







End FilePipeline.

(** ** Windower: count and durations of the segments *)

Lemma range_lookup (a stop step : Z) (k : nat) (i : Z) :
  0 < step ->
  Py.range a stop step !! k = Some i -> i = a + Z.of_nat k * step /\ i < stop.
Proof.
  intros Hstep. revert a. induction k as [|k IH]; intros a;
    rewrite range_unfold by done;
    destruct (Z.ltb_spec a stop); try done; simpl.
  - intros [= <-]. lia.
  - intros Hk. apply IH in Hk. lia.
Qed.

(** C1: a buffer of [D] ms is cut into [ceil(D / W)] segments for
    [W = 60000]; they are numbered [1..N] in chronological order:
    segment [idx] is the stretch of the buffer that starts
    [(idx - 1) * W] ms into it, and each segment starts where the one
    before it ends; every segment before the last lasts exactly [W];
    the last one lasts [D mod W] when that is nonzero and [W]
    otherwise; a buffer of 150000 ms gives three segments of 60000,
    60000 and 30000 ms that start at 0, 60000 and 120000 ms; the file
    [idx.mp3] that [segment_audio] leaves in its output directory holds
    segment [idx], when the file is decoded and every export
    succeeds. *)
Theorem segment_audio_count_and_durations (audio : AudioSegment) :
  0 <= len audio ->
  let D := len audio in
  let W := SEGMENT_LENGTH in
  let segs := numbered_segments audio in
  let N := Z.of_nat (length segs) in
  N = ceil_div D W /\
  segs.*1 = seqZ 1 N /\
  (forall k idx seg,
      segs !! k = Some (idx, seg) ->
      idx = 1 + Z.of_nat k /\
      seg = slice audio ((idx - 1) * W) (idx * W) /\
      offset seg = offset audio + (idx - 1) * W) /\
  (forall k idx seg idx' seg',
      segs !! k = Some (idx, seg) ->
      segs !! S k = Some (idx', seg') ->
      idx' = idx + 1 /\ offset seg' = offset seg + len seg) /\
  (forall k idx seg,
      segs !! k = Some (idx, seg) -> idx < N -> len seg = W) /\
  (forall idx seg,
      last segs = Some (idx, seg) ->
      idx = N /\ len seg = if D mod W =? 0 then W else D mod W) /\
  (D = 150000 ->
   map (fun s => (s.1, offset s.2 - offset audio, len s.2)) segs
   = [(1, 0, 60000); (2, 60000, 60000); (3, 120000, 30000)]) /\
  (forall (env : Collaborators) (audio_file output_directory : string)
          (w : World),
      from_file env audio_file = Some audio ->
      (forall idx, export_fails env idx = false) ->
      exists w' : World,
        segment_audio env audio_file output_directory w = (Ok tt, w') /\
        scratch w'
        = scratch w ++ map (fun s => (segment_file_name s.1, Some s.2)) segs /\
        trace w' = trace w).
Proof.
  intros HD D W segs N.
  pose proof (split_segments_durations audio HD) as Hds.
  fold D W in Hds.
  assert (Hfst : segs.*1 = seqZ 1 N).
  { unfold N, segs, numbered_segments. by rewrite enumerate_fst, enumerate_length. }
  assert (Hlen : length segs = length (split_segments audio)).
  { apply enumerate_length. }
  assert (HW : W = 60000) by reflexivity.
  pose proof (Z.div_mod D W ltac:(lia)) as Hdm.
  pose proof (Z.mod_pos_bound D W ltac:(lia)) as Hr.
  pose proof (Z.div_pos D W HD ltac:(lia)) as Hq.
  set (q := D / W) in *. set (r := D mod W) in *.
  assert (HN : N = if r =? 0 then q else q + 1).
  { subst N. rewrite Hlen, <- (length_map len), Hds, length_app, length_replicate.
    destruct (r =? 0); simpl; lia. }
  assert (Hnth : forall k idx seg,
             segs !! k = Some (idx, seg) ->
             idx = 1 + Z.of_nat k /\
             (replicate (Z.to_nat q) W ++ (if r =? 0 then [] else [r])) !! k
               = Some (len seg)).
  { intros k idx seg Hk. apply enumerate_lookup in Hk as [-> Hk].
    split; [done|]. rewrite <- Hds, list_lookup_fmap, Hk. done. }
  assert (Hpos : forall k idx seg,
             segs !! k = Some (idx, seg) ->
             idx = 1 + Z.of_nat k /\
             seg = slice audio ((idx - 1) * W) (idx * W) /\
             offset seg = offset audio + (idx - 1) * W /\
             (idx - 1) * W < D).
  { intros k idx seg Hk. apply enumerate_lookup in Hk as [-> Hk].
    unfold split_segments in Hk.
    change (map ?f ?l) with (f <$> l) in Hk.
    rewrite list_lookup_fmap in Hk.
    destruct (Py.range 0 (len audio) SEGMENT_LENGTH !! k) as [i|] eqn:Hi;
      [|discriminate].
    apply range_lookup in Hi as [-> Hi]; [|done].
    injection Hk as <-. fold W D in Hi |- *.
    replace (1 + Z.of_nat k - 1) with (Z.of_nat k) by lia.
    replace ((1 + Z.of_nat k) * W) with (0 + Z.of_nat k * W + W) by lia.
    split_and!; [done | f_equal; lia | | lia].
    unfold slice; simpl. fold D. lia. }
  split_and!.
  - rewrite HN. unfold ceil_div.
    destruct (Z.eqb_spec r 0) as [Hr0|Hr0].
    + apply (Z.div_unique_pos _ _ q (W - 1)); lia.
    + apply (Z.div_unique_pos _ _ (q + 1) (r - 1)); lia.
  - done.
  - intros k idx seg Hk. destruct (Hpos k idx seg Hk) as (H1 & H2 & H3 & _).
    done.
  - intros k idx seg idx' seg' Hk Hk'.
    destruct (Hpos _ _ _ Hk) as (-> & Hs & Ho & Hlt).
    destruct (Hpos _ _ _ Hk') as (-> & Hs' & Ho' & Hlt').
    split; [lia|]. rewrite Ho', Ho, Hs. unfold slice; simpl. fold D. lia.
  - intros k idx seg Hk Hidx. apply Hnth in Hk as [-> Hk].
    rewrite lookup_app_l in Hk.
    + apply lookup_replicate in Hk as [? _]. done.
    + rewrite length_replicate. destruct (r =? 0); lia.
  - intros idx seg Hlast. rewrite last_lookup in Hlast.
    pose proof Hlast as Hk. apply Hnth in Hk as [-> Hk].
    assert (Z.of_nat (Init.Nat.pred (length segs)) = N - 1) as Hpred.
    { apply lookup_lt_Some in Hlast. subst N. lia. }
    split; [lia|].
    destruct (Z.eqb_spec r 0) as [Hr0|Hr0].
    + rewrite app_nil_r in Hk. apply lookup_replicate in Hk as [? _]. done.
    + rewrite lookup_app_r in Hk by (rewrite length_replicate; lia).
      rewrite length_replicate in Hk.
      replace (Init.Nat.pred (length segs) - Z.to_nat q)%nat with O in Hk by lia.
      by injection Hk.
  - intros H150. unfold segs, numbered_segments, split_segments.
    fold D. rewrite H150.
    replace (Py.range 0 150000 SEGMENT_LENGTH) with [0; 60000; 120000]
      by (vm_compute; reflexivity).
    unfold slice, SEGMENT_LENGTH. simpl. fold D. rewrite H150.
    repeat f_equal; lia.
  - intros env audio_file output_directory w Hdec Hexp.
    rewrite segment_audio_spec. eexists. split; [reflexivity|].
    assert (Hall : forall l : list (Z * AudioSegment),
               omap (left_by_export env) l
               = map (fun s => (s.1, Some s.2)) l).
    { induction l as [|x l IH]; [done|].
      cbn [omap list_omap map]. fold (omap (left_by_export env) l).
      unfold left_by_export at 1. by rewrite Hexp, IH. }
    assert (Hfb : forall l : list (Z * AudioSegment),
               forallb (fun s => negb (export_fails env s.1)) l = true).
    { induction l as [|x l IH]; [done|]. simpl. by rewrite Hexp, IH. }
    unfold materialized, segmenting_failed. rewrite Hdec, Hall, Hfb. simpl.
    rewrite app_nil_r, map_map. done.
Qed.

(** C1, at a 150000 ms buffer. *)
Lemma segment_audio_count_and_durations_witness :
  0 <= len {| offset := 0; len := 150000 |} /\
  map (fun s => (s.1, offset s.2, len s.2))
    (numbered_segments {| offset := 0; len := 150000 |})
  = [(1, 0, 60000); (2, 60000, 60000); (3, 120000, 30000)].
Proof.
  split; [simpl; lia|].
  destruct (segment_audio_count_and_durations
              {| offset := 0; len := 150000 |} ltac:(simpl; lia))
    as (_ & _ & _ & _ & _ & _ & H & _).
  rewrite <- (H eq_refl). apply map_ext. intros [idx seg]. simpl.
  f_equal. f_equal. lia.
Defined.

(** ** The properties at the sample collaborators *)

Lemma demo_listdir_perm (names : list string) :
  listdir Demo.env_flaky names ≡ₚ names.
Proof. apply reverse_Permutation. Qed.

(** C3, at two segments that are both recognized as ["A - B"]: the
    track is listed once. *)
Lemma recognize_segments_unique_tracks_witness :
  unique_tracks Demo.w0 = [] /\
  seen_tracks Demo.w0 = ∅ /\
  exists (w' : World) (evs : list Event),
    _recognize_segments Demo.env_ab "/tmp/shazam_0" ["1.mp3"; "2.mp3"] 2
      "songs.txt" Demo.w0 = (Ok tt, w') /\
    trace w' = trace Demo.w0 ++ evs /\
    progress evs = ["A - B"; "A - B"] /\
    unique_tracks w' = ["A - B"].
Proof.
  split; [reflexivity|]. split; [reflexivity|].
  destruct (recognize_segments_unique_tracks Demo.env_ab "/tmp/shazam_0"
              ["1.mp3"; "2.mp3"] 2 "songs.txt" Demo.w0 eq_refl eq_refl)
    as (_ & w' & evs & H1 & H2 & H3 & _ & _ & H4 & _).
  exists w', evs. split; [exact H1|]. split; [exact H2|].
  split; [rewrite H3 | rewrite H4]; vm_compute; reflexivity.
Defined.

Example recognize_segments_twice_a_b :
  unique_tracks
    (_recognize_segments Demo.env_ab "/tmp/shazam_0" ["1.mp3"; "2.mp3"] 2
       "songs.txt" Demo.w0).2 = ["A - B"].
Proof. vm_compute. reflexivity. Qed.

(** C4, at a service that is down: header and blank line only. *)
Lemma output_never_holds_sentinel_witness :
  (forall names, listdir Demo.env_down names ≡ₚ names) /\
  exists (w' : World) (evs : list Event),
    process_audio_file Demo.env_down "downloads/set.mp3" "songs.txt" 1 1
      Demo.w0 = (Ok tt, w') /\
    trace w' = trace Demo.w0 ++ evs /\
    unique_tracks w' = [] /\
    appends evs = [("songs.txt", header_line "downloads/set.mp3");
                   ("songs.txt", newline)].
Proof.
  split; [exact demo_listdir_perm|].
  destruct (output_never_holds_sentinel Demo.env_down demo_listdir_perm
              "downloads/set.mp3" "songs.txt" 1 1 Demo.w0)
    as (w' & evs & H1 & H2 & _ & Hok & _ & _ & _ & Hpr & Hsent).
  destruct Hsent as [H3 H4].
  { eapply Forall_impl; [exact Hpr|].
    intros s [->|(n & file_path & H)]; [reflexivity | discriminate H]. }
  exists w', evs. split; [exact H1|]. split; [exact H2|].
  split; [exact H3|].
  rewrite <- H4. apply Hok. intros n. reflexivity.
Defined.

(** C7, at a 150000 ms recording whose three segment files are listed
    in reverse order. *)
Lemma segments_recognized_in_index_order_witness :
  (forall names, listdir Demo.env_ab names ≡ₚ names) /\
  from_file Demo.env_ab "downloads/set.mp3" = Some {| offset := 0; len := 150000 |} /\
  (forall idx, export_fails Demo.env_ab idx = false) /\
  open_fails Demo.env_ab (opens Demo.w0) "songs.txt" = false /\
  exists (w' : World) (evs : list Event) (counts : list nat),
    process_audio_file Demo.env_ab "downloads/set.mp3" "songs.txt" 1 1
      Demo.w0 = (Ok tt, w') /\
    trace w' = trace Demo.w0 ++ evs /\
    requests evs
    = concat (zip_with replicate counts
                ["/tmp/shazam_0/1.mp3"; "/tmp/shazam_0/2.mp3";
                 "/tmp/shazam_0/3.mp3"]) /\
    length counts = 3%nat.
Proof.
  split; [exact demo_listdir_perm|].
  split; [reflexivity|]. split; [intros idx; reflexivity|].
  split; [reflexivity|].
  destruct (segments_recognized_in_index_order Demo.env_ab demo_listdir_perm)
    as (_ & _ & _ & Hfull).
  destruct (Hfull "downloads/set.mp3" {| offset := 0; len := 150000 |} "songs.txt" 1 1
              Demo.w0 eq_refl (fun _ => eq_refl) eq_refl)
    as (w' & evs & counts & H1 & H2 & H3 & H4 & _).
  exists w', evs, counts. split; [exact H1|]. split; [exact H2|]. split.
  - rewrite H3. do 2 f_equal.
  - rewrite H4. vm_compute. reflexivity.
Defined.

Example listing_order_is_reversed :
  listdir Demo.env_ab ["1.mp3"; "2.mp3"; "10.mp3"]
  = ["10.mp3"; "2.mp3"; "1.mp3"].
Proof. reflexivity. Qed.

(** C8, at a recording whose segments are all recognized as
    ["A - B"]. *)
Lemma output_sections_match_summaries_witness :
  (forall names, listdir Demo.env_ab names ≡ₚ names) /\
  (forall n, open_fails Demo.env_ab n "songs.txt" = false) /\
  exists (w' : World) (evs : list Event),
    process_audio_file Demo.env_ab "downloads/set.mp3" "songs.txt" 1 1
      Demo.w0 = (Ok tt, w') /\
    trace w' = trace Demo.w0 ++ evs /\
    appends evs
    = file_section "songs.txt" "downloads/set.mp3" (unique_tracks w') /\
    tracklist evs = Py.enumerate (unique_tracks w') 1.
Proof.
  split; [exact demo_listdir_perm|]. split; [intros n; reflexivity|].
  apply (output_sections_match_summaries Demo.env_ab demo_listdir_perm
           "songs.txt" (fun _ => eq_refl)).
Defined.

Example output_section_a_b :
  appends
    (trace (process_audio_file Demo.env_ab "downloads/set.mp3" "songs.txt" 1 1
              Demo.w0).2)
  = [("songs.txt", header_line "downloads/set.mp3");
     ("songs.txt", track_line "A - B");
     ("songs.txt", newline)].
Proof. vm_compute. reflexivity. Qed.

(** C5 as stated fails on the code: after the decode failure is
    reported, the pipeline of the file goes on to the recognition step,
    appends the blank line and reports the file as processed. *)
Lemma decode_failure_does_not_abort :
  from_file Demo.env_corrupt "downloads/bad.mp3" = None /\
  trace (process_audio_file Demo.env_corrupt "downloads/bad.mp3" "songs.txt"
           1 1 Demo.w0).2
  = [LogInfo (MsgProcessingFile "downloads/bad.mp3");
     Append "songs.txt" (header_line "downloads/bad.mp3");
     LogInfo MsgSegmenting;
     LogError (MsgSegmentingFailed "downloads/bad.mp3");
     LogInfo MsgRecognizing;
     Append "songs.txt" newline;
     LogInfo (MsgProcessed "downloads/bad.mp3")] /\
  ~ aborted_at (LogError (MsgSegmentingFailed "downloads/bad.mp3"))
      (trace (process_audio_file Demo.env_corrupt "downloads/bad.mp3"
                "songs.txt" 1 1 Demo.w0).2).
Proof.
  split; [reflexivity|]. split; [vm_compute; reflexivity|].
  unfold aborted_at. vm_compute. discriminate.
Qed.

(** C5, amended, at a recording that cannot be decoded. *)
Lemma decode_failure_logged_pipeline_continues_witness :
  (forall names, listdir Demo.env_corrupt names ≡ₚ names) /\
  from_file Demo.env_corrupt "downloads/bad.mp3" = None /\
  exists w' : World,
    process_audio_file Demo.env_corrupt "downloads/bad.mp3" "songs.txt" 1 1
      Demo.w0 = (Ok tt, w') /\
    calls w' = calls Demo.w0 /\
    unique_tracks w' = [].
Proof.
  split; [exact demo_listdir_perm|]. split; [reflexivity|].
  destruct (decode_failure_logged_pipeline_continues Demo.env_corrupt
              demo_listdir_perm "downloads/bad.mp3" "songs.txt" 1 1 Demo.w0
              eq_refl) as (w' & H1 & H2 & H3 & _).
  exists w'. split; [exact H1|]. split; [exact H2 | exact H3].
Defined.



(** * Further properties *)

(** ** Windower *)

Lemma total_duration_map (l : list AudioSegment) :
  total_duration l = foldr Z.add 0 (map len l).
Proof. induction l as [|x l IH]; simpl; [done | by rewrite IH]. Qed.

Lemma sum_replicate (n : nat) (x : Z) :
  foldr Z.add 0 (replicate n x) = Z.of_nat n * x.
Proof. induction n as [|n IH]; simpl; [done | rewrite IH; lia]. Qed.

Lemma covers_range (audio : AudioSegment) (n : nat) (a : Z) :
  0 <= a <= len audio ->
  (Z.to_nat (len audio - a) <= n)%nat ->
  covers (map (fun i => slice audio i (i + SEGMENT_LENGTH))
            (Py.range a (len audio) SEGMENT_LENGTH))
    (offset audio + a) (offset audio + len audio).
Proof.
  assert (HW : 0 < SEGMENT_LENGTH) by reflexivity.
  revert a. induction n as [|n IH]; intros a Ha Hn;
    rewrite range_unfold by done;
    destruct (Z.ltb_spec a (len audio)) as [Hlt|Hge]; simpl; try lia.
  split_and!; [lia | lia |].
  destruct (Z_le_gt_dec (a + SEGMENT_LENGTH) (len audio)) as [Hle|Hgt].
  - replace (offset audio + a
             + (Z.min (a + SEGMENT_LENGTH) (len audio) - Z.min a (len audio)))
      with (offset audio + (a + SEGMENT_LENGTH)) by lia.
    apply IH; lia.
  - rewrite range_unfold by done.
    destruct (Z.ltb_spec (a + SEGMENT_LENGTH) (len audio)); [lia|].
    simpl. lia.
Qed.

(** X1: the segments cut from a buffer lie end to end in it, in the
    order of the list: the first starts where the buffer starts, each of
    the others where the one before it ends, and the last ends where the
    buffer ends, so that no audio is lost or held twice; none is empty
    or longer than the window, their durations add up to the duration
    of the buffer, and an empty buffer gives no segment. *)
Theorem split_segments_partition (audio : AudioSegment) :
  0 <= len audio ->
  covers (split_segments audio) (offset audio) (offset audio + len audio) /\
  Forall (fun seg => 0 < len seg <= SEGMENT_LENGTH) (split_segments audio) /\
  total_duration (split_segments audio) = len audio /\
  (len audio = 0 -> split_segments audio = []).
Proof.
  intros HD.
  pose proof (split_segments_durations audio HD) as Hds.
  assert (HW : SEGMENT_LENGTH = 60000) by reflexivity.
  pose proof (Z.div_mod (len audio) SEGMENT_LENGTH ltac:(lia)) as Hdm.
  pose proof (Z.mod_pos_bound (len audio) SEGMENT_LENGTH ltac:(lia)) as Hr.
  pose proof (Z.div_pos (len audio) SEGMENT_LENGTH HD ltac:(lia)) as Hq.
  split_and!.
  - pose proof (covers_range audio (Z.to_nat (len audio)) 0) as Hc.
    rewrite Z.add_0_r in Hc. apply Hc; lia.
  - apply (Forall_fmap len (fun d => 0 < d <= SEGMENT_LENGTH)).
    change (fmap len (split_segments audio)) with (map len (split_segments audio)).
    rewrite Hds. apply Forall_app. split.
    + apply Forall_replicate. lia.
    + destruct (Z.eqb_spec (len audio mod SEGMENT_LENGTH) 0);
        [constructor | repeat constructor; lia].
  - rewrite total_duration_map, Hds, foldr_app.
    destruct (Z.eqb_spec (len audio mod SEGMENT_LENGTH) 0) as [H0|H0]; simpl.
    + rewrite sum_replicate. lia.
    + assert (Hshift : forall (l : list Z) (a : Z),
                 foldr Z.add a l = foldr Z.add 0 l + a).
      { induction l as [|x l IH]; intros a; simpl; [lia|]. rewrite IH. lia. }
      rewrite Hshift, sum_replicate. lia.
  - intros H0. apply (f_equal (@length Z)) in Hds.
    rewrite H0 in Hds. simpl in Hds. rewrite length_map in Hds.
    by apply nil_length_inv.
Qed.

(** X1, at a buffer of 150000 ms. *)
Lemma split_segments_partition_witness :
  0 <= len {| offset := 0; len := 150000 |} /\
  covers (split_segments {| offset := 0; len := 150000 |}) 0 150000 /\
  total_duration (split_segments {| offset := 0; len := 150000 |}) = 150000.
Proof.
  split; [simpl; lia|].
  destruct (split_segments_partition {| offset := 0; len := 150000 |}
              ltac:(simpl; lia)) as (H1 & _ & H2 & _).
  split; [exact H1 | exact H2].
Defined.

(** ** Names of the segment files *)

(** X2: the name of a segment file gives back the index it was made
    from: [splitext] cuts it at the extension, the sort key is the
    index, and two indices never share a file name. *)
Theorem segment_file_name_round_trip :
  (forall i, Py.splitext (segment_file_name i) = (Py.str i, ".mp3")) /\
  (forall i, segment_index (segment_file_name i) = Some i) /\
  (forall i j, segment_file_name i = segment_file_name j -> i = j).
Proof.
  split_and!.
  - intros i. destruct (str_numeral i) as [Hne Hnum].
    by apply splitext_numeral.
  - apply segment_index_file_name.
  - intros i j Heq.
    pose proof (segment_index_file_name i) as Hi.
    rewrite Heq, segment_index_file_name in Hi. by injection Hi.
Qed.

(** ** Segment export *)

(** X3: on an output directory that exists (the caller passes a fresh
    temporary directory), [segment_audio] never raises, asks nothing of
    the recognition service and leaves the track set alone.  For every
    segment it leaves one file at most, under the name of the index of
    the segment: the encoded segment when the export succeeds, an empty
    file when the export fails after it has created the file, nothing
    when it fails before.  A failed export does not stop the others and
    does not shift their numbers, and the file it leaves is among the
    segment files that are listed afterwards.  One error line is logged
    when the decoding or some export fails, none otherwise. *)
Theorem segment_audio_keeps_siblings (env : Collaborators)
    (audio_file output_directory : string) (w : World) :
  exists (w' : World) (new : list (string * option AudioSegment)),
    segment_audio env audio_file output_directory w = (Ok tt, w') /\
    calls w' = calls w /\
    opens w' = opens w /\
    unique_tracks w' = unique_tracks w /\
    seen_tracks w' = seen_tracks w /\
    scratch w' = scratch w ++ new /\
    new.*1 = segment_files env audio_file /\
    (forall name content,
        (name, content) ∈ new <->
        exists audio idx seg,
          from_file env audio_file = Some audio /\
          (idx, seg) ∈ numbered_segments audio /\
          name = segment_file_name idx /\
          (export_fails env idx = false /\ content = Some seg \/
           export_fails env idx = true /\ export_leaves_file env idx = true /\
           content = None)) /\
    trace w' = trace w ++ (if segmenting_failed env audio_file
                           then [LogError (MsgSegmentingFailed audio_file)]
                           else []) /\
    (segmenting_failed env audio_file = false <->
     exists audio,
       from_file env audio_file = Some audio /\
       forall idx seg,
         (idx, seg) ∈ numbered_segments audio -> export_fails env idx = false).
Proof.
  rewrite segment_audio_spec.
  eexists _, (map segment_file (materialized env audio_file)).
  split; [reflexivity|]. do 5 (split; [reflexivity|]).
  split_and!.
  - unfold segment_files, segment_file.
    change (map ?f ?l) with (f <$> l). by rewrite <- !list_fmap_compose.
  - intros name content. unfold materialized.
    change (map segment_file ?l) with (segment_file <$> l).
    rewrite list_elem_of_fmap. split.
    + intros ([idx' c] & Heq & Hin).
      destruct (from_file env audio_file) as [audio|];
        [|by apply not_elem_of_nil in Hin].
      apply list_elem_of_omap in Hin as ([idx seg] & Hin & Hleft).
      unfold segment_file in Heq. cbn [fst snd] in Heq.
      injection Heq as -> ->.
      exists audio, idx, seg.
      unfold left_by_export in Hleft. cbn [fst snd] in Hleft.
      destruct (export_fails env idx);
        [destruct (export_leaves_file env idx)|]; simplify_eq;
        split_and!; auto.
    + intros (audio & idx & seg & -> & Hin & -> & Hc).
      exists (idx, content). split; [done|].
      apply list_elem_of_omap. exists (idx, seg). split; [done|].
      unfold left_by_export. cbn [fst snd].
      destruct Hc as [[-> ->]|(-> & -> & ->)]; reflexivity.
  - reflexivity.
  - unfold segmenting_failed.
    destruct (from_file env audio_file) as [audio|].
    + rewrite negb_false_iff, forallb_forall. split.
      * intros Hall. exists audio. split; [done|]. intros idx seg Hin.
        apply list_elem_of_In in Hin. apply Hall in Hin. simpl in Hin.
        by destruct (export_fails env idx).
      * intros (audio' & [= <-] & Hall) [idx seg] Hin.
        apply list_elem_of_In in Hin. simpl. by rewrite (Hall idx seg Hin).
    + split; [discriminate | by intros (audio & [=] & _)].
Qed.

(** ** Retry policy, continued *)

Section RetryBounds.

Variable env : Collaborators.

Lemma malformed_recognized (o : Outcome Data) :
  malformed o -> recognized o = None.
Proof.
  intros ([t a] & -> & H). simpl in *. destruct t as [t|]; [|done].
  destruct H as [H|H]; [discriminate | by subst a].
Qed.

(** X4: a payload that has a track but lacks its title or its subtitle
    counts as a failed attempt (the missing key is caught inside the
    loop): when every request comes back like that, [get_name] makes
    [max_retries] requests and returns ["Not found"]. *)
Theorem get_name_missing_key (file_path : string) (max_retries : Z)
    (w : World) :
  1 <= max_retries ->
  (forall i : nat,
      Z.of_nat i < max_retries ->
      malformed (recognize env (calls w + i) file_path)) ->
  get_name env file_path max_retries w
  = (Ok (Some "Not found"),
     advance (Z.to_nat max_retries)
       (attempts_trace file_path (Z.to_nat max_retries)) w).
Proof.
  intros Hmax Hmal. rewrite get_name_range by lia.
  apply get_name_loop_exhausted; [lia | lia |].
  intros i Hi. apply malformed_recognized, Hmal. lia.
Qed.

Lemma prefix_app (sub t : string) : String.prefix sub (sub ++ t) = true.
Proof.
  induction sub as [|a sub IH]; simpl; [by destruct t|].
  destruct (ascii_dec a a); [done | congruence].
Qed.

Lemma contains_app (sub a t : string) :
  Py.contains sub (a ++ sub ++ t) = true.
Proof.
  induction a as [|c a IH].
  - change ("" ++ sub ++ t)%string with (sub ++ t)%string.
    pose proof (prefix_app sub t) as Hp.
    destruct (sub ++ t)%string; cbn [Py.contains]; by rewrite Hp.
  - simpl. rewrite IH. apply orb_true_r.
Qed.

Lemma canonical_not_sentinel (s : string) :
  is_canonical s -> s ≠ "Not found".
Proof.
  intros (t & a & ->) Heq.
  pose proof (contains_app " - " a t) as Hc. rewrite Heq in Hc.
  discriminate Hc.
Qed.

(** The first request that succeeds among the next [k], if any. *)
Lemma first_success (file_path : string) (w : World) (k : nat) :
  (forall i, (i < k)%nat ->
     recognized (recognize env (calls w + i) file_path) = None) \/
  exists (j : nat) (s : string),
    (j < k)%nat /\
    (forall i, (i < j)%nat ->
       recognized (recognize env (calls w + i) file_path) = None) /\
    recognized (recognize env (calls w + j) file_path) = Some s.
Proof.
  induction k as [|k [Hnone|(j & s & Hj & Hbefore & Hs)]].
  - left. intros i Hi. lia.
  - destruct (recognized (recognize env (calls w + k) file_path)) as [s|] eqn:Hk.
    + right. exists k, s. split_and!; [lia | | done].
      intros i Hi. by apply Hnone.
    + left. intros i Hi.
      destruct (decide (i = k)) as [->|]; [done | apply Hnone; lia].
  - right. exists j, s. split_and!; [lia | done | done].
Qed.

(** X5: for [max_retries >= 1], the result of [get_name] is the
    sentinel exactly when none of the [max_retries] requests yields a
    track with title and subtitle; a recognized track never reads as
    the sentinel, and in that case the result is the canonical string
    of the first request that succeeds. *)
Theorem get_name_sentinel_iff_exhausted (file_path : string)
    (max_retries : Z) (w : World) :
  1 <= max_retries ->
  (fst (get_name env file_path max_retries w) = Ok (Some "Not found") <->
   forall i : nat,
     Z.of_nat i < max_retries ->
     recognized (recognize env (calls w + i) file_path) = None) /\
  (forall (j : nat) (s : string),
      Z.of_nat j < max_retries ->
      (forall i, (i < j)%nat ->
         recognized (recognize env (calls w + i) file_path) = None) ->
      recognized (recognize env (calls w + j) file_path) = Some s ->
      fst (get_name env file_path max_retries w) = Ok (Some s) /\
      s ≠ "Not found").
Proof.
  intros Hmax.
  assert (Hfound : forall (j : nat) (s : string),
             Z.of_nat j < max_retries ->
             (forall i, (i < j)%nat ->
                recognized (recognize env (calls w + i) file_path) = None) ->
             recognized (recognize env (calls w + j) file_path) = Some s ->
             fst (get_name env file_path max_retries w) = Ok (Some s) /\
             s ≠ "Not found").
  { intros j s Hj Hbefore Hs. split.
    - rewrite get_name_range by lia.
      by rewrite (get_name_loop_found env file_path max_retries s j
                    (Z.to_nat max_retries) 0 w) by (done || lia).
    - eapply canonical_not_sentinel, recognized_canonical, Hs. }
  split; [|exact Hfound]. split.
  - intros Hres i Hi.
    destruct (first_success file_path w (Z.to_nat max_retries))
      as [Hnone|(j & s & Hj & Hbefore & Hs)]; [apply Hnone; lia|].
    destruct (Hfound j s ltac:(lia) Hbefore Hs) as [Hres' Hne].
    rewrite Hres in Hres'. congruence.
  - intros Hnone. rewrite get_name_range by lia.
    rewrite get_name_loop_exhausted; [done | lia | lia |].
    intros i Hi. apply Hnone. lia.
Qed.

Lemma attempts_trace_last (file_path : string) (j : nat) :
  last (attempts_trace file_path (S j)) = Some (Recognize file_path).
Proof.
  induction j as [|j IH]; [done|].
  change (attempts_trace file_path (S (S j)))
    with (Recognize file_path :: Sleep 2 :: attempts_trace file_path (S j)).
  by rewrite !last_cons, IH.
Qed.

(** X6: whatever [max_retries] is, [get_name] only makes requests and
    waits between them: at most [max_retries] requests (none when
    [max_retries <= 0], at least one otherwise), never a wait after the
    last one; it returns [None] exactly when [max_retries <= 0].  The
    output file, the directory and the track set are not touched. *)
Theorem get_name_request_bound (file_path : string) (max_retries : Z)
    (w : World) :
  exists (j : nat) (r : option string) (w' : World),
    get_name env file_path max_retries w = (Ok r, w') /\
    calls w' = (calls w + j)%nat /\
    opens w' = opens w /\
    scratch w' = scratch w /\
    unique_tracks w' = unique_tracks w /\
    seen_tracks w' = seen_tracks w /\
    trace w' = trace w ++ attempts_trace file_path j /\
    Z.of_nat j <= Z.max 0 max_retries /\
    (1 <= max_retries -> (1 <= j)%nat) /\
    (r = None <-> max_retries <= 0) /\
    (forall e, last (attempts_trace file_path j) = Some e ->
               e = Recognize file_path).
Proof.
  destruct (Z.le_gt_cases max_retries 0) as [Hle|Hgt].
  - exists O, None, w.
    split.
    { unfold get_name, Py.range.
      by replace (Z.to_nat (max_retries - 0)) with O by lia. }
    split; [lia|]. do 4 (split; [reflexivity|]).
    split; [simpl; by rewrite app_nil_r|].
    split; [lia|]. split; [lia|]. split; [done|].
    intros e [=].
  - rewrite get_name_range by lia.
    destruct (get_name_loop_total env file_path max_retries
                (Z.to_nat max_retries) 0 w) as (j & s & Hj & _ & ->);
      [lia | lia |].
    exists j, (Some s). eexists. split; [reflexivity|].
    do 6 (split; [reflexivity|]).
    split; [lia|]. split; [lia|].
    split; [split; [discriminate | lia]|].
    intros e. destruct j as [|j]; [lia|].
    rewrite attempts_trace_last. by intros [= <-].
Qed.

End RetryBounds.

(** X4, at a service whose payloads lack the title. *)
Lemma get_name_missing_key_witness :
  1 <= 2 /\
  get_name
    {| urlparse := urlparse Demo.env_flaky;
       download := download Demo.env_flaky;
       recognize := fun _ _ =>
         Ok {| track := Some {| title := None; subtitle := Some "Joni" |} |};
       open_fails := open_fails Demo.env_flaky;
       from_file := from_file Demo.env_flaky;
       export_fails := export_fails Demo.env_flaky;
       export_leaves_file := export_leaves_file Demo.env_flaky;
       listdir := listdir Demo.env_flaky;
       tmp_dir := tmp_dir Demo.env_flaky |}
    "1.mp3" 2 Demo.w0
  = (Ok (Some "Not found"),
     advance 2 [Recognize "1.mp3"; Sleep 2; Recognize "1.mp3"] Demo.w0).
Proof.
  split; [lia|].
  apply (get_name_missing_key _ "1.mp3" 2 Demo.w0); [lia|].
  intros i _. eexists. split; [reflexivity|]. by left.
Defined.

(** X5, at a service that answers on the third request. *)
Lemma get_name_sentinel_iff_exhausted_witness :
  1 <= 3 /\
  fst (get_name Demo.env_flaky "1.mp3" 3 Demo.w0) = Ok (Some "Joni - Blue") /\
  "Joni - Blue" ≠ "Not found".
Proof.
  split; [lia|].
  destruct (get_name_sentinel_iff_exhausted Demo.env_flaky "1.mp3" 3 Demo.w0)
    as [_ Hfound]; [lia|].
  apply (Hfound 2%nat "Joni - Blue"); [lia | | reflexivity].
  intros [|[|i]] Hi; [reflexivity | reflexivity | lia].
Defined.

(** X6, with three attempts allowed and with none. *)
Lemma get_name_request_bound_witness :
  (exists (j : nat) (w' : World),
      get_name Demo.env_down "1.mp3" 3 Demo.w0 = (Ok (Some "Not found"), w') /\
      calls w' = (calls Demo.w0 + j)%nat /\ (1 <= j <= 3)%nat) /\
  get_name Demo.env_down "1.mp3" (-1) Demo.w0 = (Ok None, Demo.w0).
Proof.
  split.
  - destruct (get_name_request_bound Demo.env_down "1.mp3" 3 Demo.w0)
      as (j & r & w' & H1 & H2 & _ & _ & _ & _ & _ & H3 & H4 & _).
    exists j, w'. split; [|split; [exact H2 | lia]].
    rewrite H1. vm_compute in H1. injection H1 as <- _. reflexivity.
  - destruct (get_name_request_bound Demo.env_down "1.mp3" (-1) Demo.w0)
      as (j & r & w' & H1 & _). reflexivity.
Defined.

(** ** Persistence of a track line *)

(** X7: [write_to_file] never raises and touches neither the service,
    the directory nor the track set.  Given the sentinel it does
    nothing at all, not even opening the file; given anything else it
    opens the file once and either appends the text and a newline or,
    when that fails, prints the error and goes on: the loss is
    silent. *)
Theorem write_to_file_effect (env : Collaborators) (data filename : string)
    (w : World) :
  exists w' : World,
    write_to_file env data filename w = (Ok tt, w') /\
    calls w' = calls w /\
    scratch w' = scratch w /\
    unique_tracks w' = unique_tracks w /\
    seen_tracks w' = seen_tracks w /\
    (data = "Not found" -> w' = w) /\
    (data ≠ "Not found" ->
     opens w' = S (opens w) /\
     trace w' = trace w ++ [if open_fails env (opens w) filename
                            then Stdout (MsgWriteError filename)
                            else Append filename (data ++ newline)]).
Proof.
  destruct (decide (data = "Not found")) as [->|Hne].
  - exists w. split; [reflexivity|]. do 4 (split; [reflexivity|]).
    split; [done | congruence].
  - rewrite write_to_file_track by done. eexists. split; [reflexivity|].
    do 4 (split; [reflexivity|]). split; [congruence|]. intros _. done.
Qed.

(** ** Recognition sequencer, continued *)

Section SequencerMore.

Variable env : Collaborators.

Lemma attempts_trace_quiet (file_path : string) (k : nat) :
  progress_lines (attempts_trace file_path k) = [] /\
  pacing (attempts_trace file_path k) = [] /\
  started (attempts_trace file_path k) = [] /\
  Forall (fun d => d = 2%Q \/ d = (1 # 2)%Q) (waits (attempts_trace file_path k)).
Proof.
  induction k as [|[|k] (IH1 & IH2 & IH3 & IH4)]; [by repeat split..|].
  split_and!; [exact IH1 | exact IH2 | exact IH3 |].
  change (waits (attempts_trace file_path (S (S k))))
    with (2%Q :: waits (attempts_trace file_path (S k))).
  constructor; [by left | exact IH4].
Qed.

Lemma segment_events_observed (output_filename : string)
    (idx total_segments : Z) (file_path : string) (j : nat) (s : string)
    (w : World) :
  let evs := segment_events env output_filename idx total_segments
               file_path j s w in
  progress_lines evs = [(idx, total_segments, s)] /\
  pacing evs = (if idx <? total_segments then [(1 # 2)%Q] else []) /\
  started evs = [] /\
  Forall (fun d => d = 2%Q \/ d = (1 # 2)%Q) (waits evs) /\
  Forall (fun p => p.1 = output_filename) (appends evs).
Proof.
  cbv zeta. unfold segment_events.
  destruct (attempts_trace_quiet file_path j) as (H1 & H2 & H3 & H4).
  unfold progress_lines, pacing, started, waits, appends.
  rewrite !omap_app.
  fold (progress_lines (attempts_trace file_path j))
       (pacing (attempts_trace file_path j))
       (started (attempts_trace file_path j))
       (waits (attempts_trace file_path j))
       (appends (attempts_trace file_path j)).
  rewrite H1, H2, H3, appends_attempts.
  destruct (is_new s w); [destruct (open_fails _ _ _)|];
    destruct (idx <? total_segments); simpl;
    rewrite ?app_nil_r; split_and!; try done;
    try (apply Forall_app; split; [exact H4 | by repeat constructor; right]);
    by repeat constructor.
Qed.

Lemma segments_run_observed (tmp_dir : string) (total_segments : Z)
    (output_filename : string) (files : list (Z * string)) (w w' : World) :
  segments_run env tmp_dir total_segments output_filename files w w' ->
  exists evs : list Event,
    trace w' = trace w ++ evs /\
    calls w' = (calls w + length (requests evs))%nat /\
    (progress_lines evs).*1 = map (fun p => (p.1, total_segments)) files /\
    length (pacing evs)
    = length (filter (fun p => p.1 < total_segments) files) /\
    started evs = [] /\
    Forall (fun d => d = 2%Q \/ d = (1 # 2)%Q) (waits evs) /\
    Forall (fun p => p.1 = output_filename) (appends evs).
Proof.
  induction 1 as [w | idx file_name rest j s w w' Hj Hs Hlook Hrun IH].
  - exists []. rewrite app_nil_r. split_and!; try done; simpl; lia.
  - destruct IH as (evs & Htr & Hcalls & Hpl & Hpc & Hst & Hw & Ha).
    set (p := Py.path_join tmp_dir file_name) in *.
    set (sevs := segment_events env output_filename idx total_segments p j s w).
    destruct (segment_events_observed output_filename idx total_segments p j s w)
      as (S1 & S2 & S3 & S4 & S5). fold sevs in S1, S2, S3, S4, S5.
    exists (sevs ++ evs). split_and!.
    + rewrite Htr. unfold after_segment; simpl. by rewrite <- app_assoc.
    + rewrite Hcalls. unfold after_segment; simpl.
      rewrite requests_app, length_app. unfold sevs.
      rewrite requests_segment_events, length_replicate. lia.
    + unfold progress_lines. rewrite omap_app.
      fold (progress_lines sevs) (progress_lines evs).
      rewrite S1, fmap_app, Hpl. reflexivity.
    + unfold pacing. rewrite omap_app. fold (pacing sevs) (pacing evs).
      rewrite length_app, S2, Hpc.
      destruct (Z.ltb_spec idx total_segments).
      * by rewrite filter_cons_True by done.
      * rewrite filter_cons_False by (simpl; lia). done.
    + unfold started. rewrite omap_app. fold (started sevs) (started evs).
      by rewrite S3, Hst.
    + unfold waits. rewrite omap_app. fold (waits sevs) (waits evs).
      by apply Forall_app.
    + rewrite appends_app. by apply Forall_app.
Qed.

Lemma enumerate_filter_lt {A} (l : list A) (start total : Z) :
  start + Z.of_nat (length l) = total + 1 ->
  length (filter (fun p : Z * A => p.1 < total) (Py.enumerate l start))
  = (length l - 1)%nat.
Proof.
  revert start. induction l as [|x l IH]; intros start Hlen; [done|].
  cbn [length] in Hlen. rewrite Nat2Z.inj_succ in Hlen.
  cbn [Py.enumerate length].
  destruct l as [|y l].
  - cbn [length] in Hlen.
    rewrite filter_cons_False by (cbn [fst]; clear IH; lia). done.
  - rewrite filter_cons_True by (cbn [fst length] in *; clear IH; lia).
    cbn [length]. rewrite IH by lia. cbn [length]. lia.
Qed.

Lemma enumerate_numbering {A} (l : list A) (start total : Z) :
  map (fun p : Z * A => (p.1, total)) (Py.enumerate l start)
  = map (fun i => (i, total)) (seqZ start (Z.of_nat (length l))).
Proof.
  rewrite <- (enumerate_fst l start).
  change (map ?f ?l) with (f <$> l). by rewrite <- list_fmap_compose.
Qed.

(** A run is made of one block of events per file, and it does not end
    with a wait when its last file bears the number [total_segments]. *)
Lemma segments_run_blocks (tmp_dir : string) (total_segments : Z)
    (output_filename : string) (files : list (Z * string)) (w w' : World) :
  segments_run env tmp_dir total_segments output_filename files w w' ->
  exists blocks : list (list Event),
    trace w' = trace w ++ concat blocks /\
    Forall2 (segment_block tmp_dir total_segments output_filename) files blocks.
Proof.
  induction 1 as [w | idx file_name rest j s w w' Hj Hs Hlook Hrun IH].
  - exists []. simpl. rewrite app_nil_r. split; [done | constructor].
  - destruct IH as (blocks & Htr & Hall).
    exists (segment_events env output_filename idx total_segments
              (Py.path_join tmp_dir file_name) j s w :: blocks).
    split.
    + rewrite Htr. unfold after_segment; simpl. by rewrite <- app_assoc.
    + constructor; [|done].
      exists j, s,
        (if is_new s w
         then [if open_fails env (opens w) output_filename
               then Stdout (MsgWriteError output_filename)
               else Append output_filename (track_line s)]
         else []).
      split_and!; [lia | lia | | |].
      * destruct (is_new s w); simpl; lia.
      * destruct (is_new s w); [|constructor].
        destruct (open_fails env (opens w) output_filename);
          (constructor; [auto | constructor]).
      * reflexivity.
Qed.

Lemma segment_block_last (tmp_dir : string) (total_segments : Z)
    (output_filename : string) (p : Z * string) (block : list Event) :
  segment_block tmp_dir total_segments output_filename p block ->
  (p.1 <? total_segments) = false ->
  exists e, last block = Some e /\ forall d, e ≠ Sleep d.
Proof.
  intros (j & s & written & _ & Hlen & Hwr & ->) ->.
  rewrite app_nil_r, !app_assoc.
  destruct written as [|e [|e' written]]; [| |simpl in Hlen; lia].
  - rewrite app_nil_r, last_snoc. eexists. split; [done|]. discriminate.
  - rewrite last_snoc. exists e. split; [done|].
    apply Forall_cons in Hwr as [[->| ->] _]; discriminate.
Qed.

Lemma last_concat_blocks {A} (blocks : list (list A)) (b : list A) (e : A) :
  last blocks = Some b -> last b = Some e -> last (concat blocks) = Some e.
Proof.
  induction blocks as [|b' blocks IH]; [done|].
  destruct blocks as [|b'' blocks].
  - intros [= ->] Hb. simpl. by rewrite app_nil_r.
  - intros Hl Hb. change (concat (b' :: ?l)) with (b' ++ concat l).
    rewrite last_app, (IH Hl Hb). done.
Qed.

Lemma enumerate_last {A} (l : list A) (start : Z) (p : Z * A) :
  last (Py.enumerate l start) = Some p ->
  p.1 = start + Z.of_nat (length l) - 1.
Proof.
  rewrite last_lookup, enumerate_length. intros Hk.
  destruct p as [idx x]. apply enumerate_lookup in Hk as [-> Hk].
  apply lookup_lt_Some in Hk. simpl. lia.
Qed.

(** X8: over [n] segment files, with [total_segments = n], the trace
    of the sequencer is one block of events per file, in the order of
    the files: the requests for the file, its progress line, numbered
    [1/n] to [n/n], what becomes of the line of the track, and then
    the pacing delay of 1/2, after every file but the last: the trace
    never ends with a wait, and there are [n - 1] pacing delays (none
    for an empty list); every other wait is a retry delay of 2; the
    only file appended to is [output_filename]; the service is asked
    once per request of the trace. *)
Theorem recognize_segments_pacing (tmp_dir : string) (tmp_files : list string)
    (output_filename : string) (w : World) :
  let n := length tmp_files in
  exists (w' : World) (blocks : list (list Event)),
    _recognize_segments env tmp_dir tmp_files (Z.of_nat n) output_filename w
    = (Ok tt, w') /\
    trace w' = trace w ++ concat blocks /\
    Forall2 (segment_block tmp_dir (Z.of_nat n) output_filename)
      (Py.enumerate tmp_files 1) blocks /\
    (forall e, last (concat blocks) = Some e -> forall d, e ≠ Sleep d) /\
    calls w' = (calls w + length (requests (concat blocks)))%nat /\
    (progress_lines (concat blocks)).*1
    = map (fun i => (i, Z.of_nat n)) (seqZ 1 (Z.of_nat n)) /\
    length (pacing (concat blocks)) = (n - 1)%nat /\
    Forall (fun d => d = 2%Q \/ d = (1 # 2)%Q) (waits (concat blocks)) /\
    Forall (fun p => p.1 = output_filename) (appends (concat blocks)).
Proof.
  intros n. unfold _recognize_segments.
  destruct (recognize_loop_run env tmp_dir (Z.of_nat n) output_filename
              (Py.enumerate tmp_files 1) w) as (w' & Hloop & Hrun).
  destruct (segments_run_observed _ _ _ _ _ _ Hrun)
    as (evs & Htr & Hcalls & Hpl & Hpc & _ & Hw & Ha).
  destruct (segments_run_blocks _ _ _ _ _ _ Hrun) as (blocks & Htr' & Hblocks).
  rewrite Htr in Htr'. apply app_inv_head in Htr'. subst evs.
  exists w', blocks. split_and!; try done.
  - intros e He.
    destruct (last blocks) as [b|] eqn:Hb.
    2:{ apply last_None in Hb. subst blocks. discriminate He. }
    rewrite last_lookup in Hb.
    destruct (Forall2_lookup_r _ _ _ _ _ Hblocks Hb) as (p & Hp & Hblock).
    assert (Hlast : last (Py.enumerate tmp_files 1) = Some p).
    { rewrite last_lookup, (Forall2_length _ _ _ Hblocks). exact Hp. }
    apply enumerate_last in Hlast.
    destruct (segment_block_last _ _ _ _ _ Hblock) as (e' & He' & Hne).
    { apply Z.ltb_ge. unfold n. lia. }
    rewrite <- last_lookup in Hb.
    rewrite (last_concat_blocks _ _ _ Hb He') in He. by injection He as <-.
  - by rewrite Hpl, enumerate_numbering.
  - rewrite Hpc. apply enumerate_filter_lt. unfold n. lia.
Qed.

(** What a run of the sequencer adds to a track set that satisfies
    [seen_tracks = set(unique_tracks)]. *)
Lemma segments_run_appended (tmp_dir : string) (total_segments : Z)
    (output_filename : string) (files : list (Z * string)) (w w' : World) :
  segments_run env tmp_dir total_segments output_filename files w w' ->
  seen_tracks w = list_to_set (unique_tracks w) ->
  exists evs : list Event,
    trace w' = trace w ++ evs /\
    seen_tracks w' = list_to_set (unique_tracks w') /\
    unique_tracks w'
    = unique_tracks w
      ++ filter (fun s => s ∉ unique_tracks w)
           (first_seen (found (progress evs))) /\
    (forall file text,
        (file, text) ∈ appends evs ->
        file = output_filename /\
        exists s, s ∈ first_seen (found (progress evs)) /\
                  ~ s ∈ unique_tracks w /\ text = track_line s).
Proof.
  induction 1 as [w | idx file_name rest j s w w' Hj Hs Hlook Hrun IH];
    intros Hseen.
  - exists []. rewrite !app_nil_r. split_and!; try done.
    intros file text Hin. by apply not_elem_of_nil in Hin.
  - pose proof (is_new_spec s w Hseen) as Hnew.
    set (p := Py.path_join tmp_dir file_name) in *.
    set (sevs := segment_events env output_filename idx total_segments p j s w).
    assert (Hsp : progress sevs = [s]) by apply progress_segment_events.
    assert (Hsa : appends sevs
                  = if is_new s w && negb (open_fails env (opens w) output_filename)
                    then [(output_filename, track_line s)] else [])
      by apply appends_segment_events.
    destruct IH as (evs & Htr & Hsn & Hu & Happ).
    { unfold after_segment; simpl. rewrite Hnew.
      destruct (bool_decide_reflect (s ≠ "Not found" /\ s ∉ unique_tracks w));
        [|by rewrite app_nil_r].
      rewrite list_to_set_app_L, Hseen. set_solver. }
    unfold after_segment in Htr, Hu, Happ; simpl in Htr, Hu, Happ.
    fold sevs in Htr.
    set (U := unique_tracks w) in *.
    set (F := first_seen (found (progress evs))) in *.
    assert (Hfound : first_seen (found (progress (sevs ++ evs)))
                     = if decide (s = "Not found") then F
                       else s :: filter (fun y => y ≠ s) F).
    { rewrite progress_app, Hsp. unfold found. simpl.
      rewrite filter_cons. destruct (decide (s ≠ "Not found")) as [Hne|He].
      - rewrite decide_False by done. reflexivity.
      - apply dec_stable in He. by rewrite decide_True. }
    assert (Hgoal : U ++ filter (fun x => x ∉ U)
                           (first_seen (found (progress (sevs ++ evs))))
                    = (U ++ (if is_new s w then [s] else []))
                      ++ filter (fun x => x ∉ U ++ (if is_new s w then [s] else []))
                           F).
    { rewrite Hfound, Hnew.
      destruct (bool_decide_reflect (s ≠ "Not found" /\ s ∉ U)) as [[Hne Hnin]|Hn].
      - rewrite decide_False by done.
        rewrite filter_cons_True by done.
        rewrite <- app_assoc. simpl. do 2 f_equal.
        rewrite list_filter_filter. apply list_filter_iff.
        intros x. rewrite not_elem_of_app, list_elem_of_singleton. tauto.
      - rewrite app_nil_r.
        destruct (decide (s = "Not found")) as [He|Hne]; [done|].
        assert (Hin : s ∈ U).
        { destruct (decide (s ∈ U)); [done | naive_solver]. }
        rewrite filter_cons_False by naive_solver.
        rewrite list_filter_filter. f_equal. apply list_filter_iff.
        intros x. split; [tauto|]. intros Hx. split; [done|].
        intros ->. done. }
    exists (sevs ++ evs). split_and!.
    + by rewrite Htr, <- app_assoc.
    + done.
    + rewrite Hu. symmetry. exact Hgoal.
    + intros file text Hin. rewrite appends_app, Hsa in Hin.
      rewrite Hfound.
      apply elem_of_app in Hin as [Hin|Hin].
      * rewrite Hnew in Hin.
        destruct (bool_decide_reflect (s ≠ "Not found" /\ s ∉ U))
          as [[Hne Hnin]|Hn]; simpl in Hin;
          [|by apply not_elem_of_nil in Hin].
        destruct (open_fails env (opens w) output_filename); simpl in Hin;
          [by apply not_elem_of_nil in Hin|].
        apply list_elem_of_singleton in Hin as [= -> ->].
        split; [done|]. exists s. rewrite decide_False by done.
        split_and!; [by left | done | done].
      * destruct (Happ file text Hin) as (-> & s' & Hs' & Hnin & ->).
        split; [done|]. exists s'.
        rewrite not_elem_of_app in Hnin. destruct Hnin as [Hnin Hne'].
        split_and!; [|done|done].
        destruct (decide (s = "Not found")) as [He|Hne]; [done|].
        right. apply list_elem_of_filter. split; [|done].
        intros ->. apply Hne'. rewrite Hnew.
        rewrite bool_decide_eq_true_2; [by left|].
        split; [done|]. intros Hin'. by apply Hnin.
Qed.

(** X9: started on a track set that is not empty but consistent
    ([seen_tracks] holds the elements of [unique_tracks]), the sequencer
    logs for every segment what the answers of the service give for it,
    keeps the track set consistent and only extends the list: the
    tracks it had stay where they are, and what is added are the
    recognized strings that were not in it, each once, in the order of
    their first recognition; only the added tracks get a line in the
    output, and only in [output_filename]. *)
Theorem recognize_segments_extends (tmp_dir : string)
    (tmp_files : list string) (total_segments : Z) (output_filename : string)
    (w : World) :
  seen_tracks w = list_to_set (unique_tracks w) ->
  let results := (segment_results env tmp_dir tmp_files (calls w)).*2 in
  let new := filter (fun s => s ∉ unique_tracks w)
               (first_seen (found results)) in
  exists (w' : World) (evs : list Event),
    _recognize_segments env tmp_dir tmp_files total_segments output_filename w
    = (Ok tt, w') /\
    trace w' = trace w ++ evs /\
    progress evs = results /\
    unique_tracks w' = unique_tracks w ++ new /\
    seen_tracks w' = list_to_set (unique_tracks w') /\
    NoDup new /\
    (forall s, s ∈ new <->
               s ∈ results /\ s ≠ "Not found" /\ s ∉ unique_tracks w) /\
    (forall file text,
        (file, text) ∈ appends evs ->
        file = output_filename /\ exists s, s ∈ new /\ text = track_line s).
Proof.
  intros Hseen results new. unfold _recognize_segments.
  destruct (recognize_loop_run env tmp_dir total_segments output_filename
              (Py.enumerate tmp_files 1) w) as (w' & Hloop & Hrun).
  destruct (segments_run_appended _ _ _ _ _ _ Hrun Hseen)
    as (evs & Htr & Hsn & Hu & Happ).
  destruct (segments_run_results _ _ _ _ _ _ _ Hrun) as (evs' & Htr' & Hpr & _).
  rewrite Htr in Htr'. apply app_inv_head in Htr'. subst evs'.
  rewrite enumerate_snd in Hpr. fold results in Hpr.
  rewrite Hpr in Hu, Happ. fold new in Hu.
  exists w', evs. split_and!; try done.
  - unfold new. apply NoDup_filter, NoDup_first_seen.
  - intros s. unfold new.
    rewrite list_elem_of_filter, elem_of_first_seen, found_elem_of. tauto.
  - intros file text Hin.
    destruct (Happ file text Hin) as (-> & s & Hs & Hnin & ->).
    split; [done|]. exists s. split; [|done].
    unfold new. by apply list_elem_of_filter.
Qed.

End SequencerMore.

(** X9, at a track set that already holds ["A - B"]: a segment
    recognized as ["A - B"] adds nothing, one recognized as
    ["Joni - Blue"] is added after it. *)
Lemma recognize_segments_extends_witness :
  let w := {| calls := 2; opens := 0; scratch := [];
              unique_tracks := ["Joni - Blue"];
              seen_tracks := {["Joni - Blue"]};
              trace := [] |} in
  seen_tracks w = list_to_set (unique_tracks w) /\
  exists (w' : World) (evs : list Event),
    _recognize_segments Demo.env_flaky "/tmp/shazam_0" ["1.mp3"] 1 "songs.txt" w
    = (Ok tt, w') /\
    trace w' = trace w ++ evs /\
    progress evs = ["Joni - Blue"] /\
    unique_tracks w' = ["Joni - Blue"].
Proof.
  cbv zeta. split; [vm_compute; reflexivity|].
  destruct (recognize_segments_extends Demo.env_flaky "/tmp/shazam_0"
              ["1.mp3"] 1 "songs.txt"
              {| calls := 2; opens := 0; scratch := [];
                 unique_tracks := ["Joni - Blue"];
                 seen_tracks := {["Joni - Blue"]};
                 trace := [] |})
    as (w' & evs & H1 & H2 & H3 & H4 & _).
  { vm_compute. reflexivity. }
  exists w', evs. split; [exact H1|]. split; [exact H2|].
  split; [rewrite H3 | rewrite H4]; vm_compute; reflexivity.
Defined.

(** ** File pipeline and driver loop, continued *)

Section PipelineMore.

Variable env : Collaborators.

Hypothesis listdir_perm : forall names, listdir env names ≡ₚ names.

Lemma requests_length_bounds (counts : list nat) (paths : list string) :
  length counts = length paths ->
  Forall (fun c => 0 < c <= 3)%nat counts ->
  (length paths <= length (concat (zip_with replicate counts paths))
   <= 3 * length paths)%nat.
Proof.
  revert paths. induction counts as [|c counts IH]; intros [|p paths] Hlen Hall;
    simpl in *; try lia.
  apply Forall_cons in Hall as [Hc Hall].
  rewrite length_app, length_replicate.
  specialize (IH paths ltac:(lia) Hall). lia.
Qed.

Lemma started_app (evs1 evs2 : list Event) :
  started (evs1 ++ evs2) = started evs1 ++ started evs2.
Proof. apply omap_app. Qed.

Lemma started_processing_msg (audio_file : string) (file_index total_files : Z)
    (evs : list Event) :
  started (LogInfo (processing_msg audio_file file_index total_files) :: evs)
  = processing_msg audio_file file_index total_files :: started evs.
Proof. unfold processing_msg. by destruct (2 <? total_files). Qed.

Lemma started_prologue (audio_file output_filename : string)
    (file_index total_files : Z) :
  started (prologue_events env audio_file output_filename file_index total_files)
  = [processing_msg audio_file file_index total_files].
Proof.
  unfold prologue_events.
  change ([?a; ?b; ?c] ++ ?l) with (a :: ([b; c] ++ l)).
  rewrite started_processing_msg. f_equal.
  by destruct (segmenting_failed env audio_file).
Qed.

Lemma started_epilogue (audio_file output_filename : string) (w3 : World) :
  started (epilogue_events env audio_file output_filename w3) = [].
Proof.
  unfold epilogue_events, summary_events. rewrite !started_app.
  assert (Hitems : forall l : list (Z * string),
             started (map (fun t => LogInfo (MsgTrack t.1 t.2)) l) = []).
  { induction l as [|[i t] l IH]; [done | exact IH]. }
  destruct (open_fails env (opens w3) output_filename);
    case_bool_decide; simpl; try done;
    by rewrite started_app, Hitems.
Qed.

Lemma first_answer_bounds (file_path : string) (c n : nat) :
  (0 < n)%nat -> (0 < (first_answer env file_path c n).1 <= n)%nat.
Proof.
  revert c. induction n as [|n IH]; intros c Hn; [lia|].
  cbn [first_answer].
  destruct (recognized (recognize env c file_path)); [simpl; lia|].
  destruct n as [|n]; [simpl; lia|].
  specialize (IH (S c) ltac:(lia)). cbn [fst]. lia.
Qed.

Lemma segment_results_counts (tmp_dir : string) (files : list string)
    (c : nat) :
  length (segment_results env tmp_dir files c).*1 = length files /\
  Forall (fun j => 0 < j <= 3)%nat (segment_results env tmp_dir files c).*1.
Proof.
  revert c. induction files as [|f files IH]; intros c; [by split|].
  destruct (IH (c + (first_answer env (Py.path_join tmp_dir f) c 3).1)%nat)
    as [IH1 IH2].
  cbn [segment_results fmap list_fmap length]. split; [by rewrite IH1|].
  constructor; [|exact IH2]. apply first_answer_bounds. lia.
Qed.

Lemma segment_file_name_inj (i j : Z) :
  segment_file_name i = segment_file_name j -> i = j.
Proof.
  intros Heq. pose proof (segment_index_file_name i) as Hi.
  rewrite Heq, segment_index_file_name in Hi. by injection Hi.
Qed.

(** The segment files that are listed are those that the exports
    leave behind, a failed export that had created its file
    included. *)
Lemma segment_files_elem (audio_file : string) (audio : AudioSegment)
    (idx : Z) :
  from_file env audio_file = Some audio ->
  segment_file_name idx ∈ segment_files env audio_file <->
  (exists seg, (idx, seg) ∈ numbered_segments audio) /\
  (export_fails env idx = false \/ export_leaves_file env idx = true).
Proof.
  intros Hdec. unfold segment_files, materialized. rewrite Hdec.
  change (map segment_file_name ?l) with (segment_file_name <$> l).
  rewrite list_elem_of_fmap. split.
  - intros (i & Heq%segment_file_name_inj & Hin). subst i.
    apply list_elem_of_fmap in Hin as ([i c] & Hi & Hin). simpl in Hi. subst i.
    apply list_elem_of_omap in Hin as ([i seg] & Hin & Hleft).
    unfold left_by_export in Hleft. cbn [fst snd] in Hleft.
    destruct (export_fails env i) eqn:Hf;
      [destruct (export_leaves_file env i) eqn:Hl|]; simplify_eq;
      (split; [by exists seg | auto]).
  - intros [[seg Hin] Hc]. exists idx. split; [done|].
    apply list_elem_of_fmap.
    exists (idx, if export_fails env idx then None else Some seg).
    split; [done|]. apply list_elem_of_omap. exists (idx, seg).
    split; [done|]. unfold left_by_export. cbn [fst snd].
    destruct (export_fails env idx); [|done].
    destruct Hc as [Hc|Hc]; [done | by rewrite Hc].
Qed.

(** One file, seen from the driver loop. *)
Lemma process_audio_file_observed (audio_file output_filename : string)
    (file_index total_files : Z) (w : World) :
  exists (w' : World) (evs : list Event),
    process_audio_file env audio_file output_filename file_index total_files w
    = (Ok tt, w') /\
    trace w' = trace w ++ evs /\
    calls w' = (calls w + length (requests evs))%nat /\
    scratch w' = (if open_fails env (opens w) output_filename
                  then scratch w else []) /\
    head evs
    = Some (LogInfo (processing_msg audio_file file_index total_files)) /\
    started evs = [processing_msg audio_file file_index total_files] /\
    unique_tracks w' = first_seen (found (progress evs)) /\
    sublist (appends evs)
      (file_section output_filename audio_file (unique_tracks w')) /\
    Forall (fun p => p.1 = output_filename) (appends evs) /\
    tracklist evs = Py.enumerate (unique_tracks w') 1 /\
    requests evs
    = (if open_fails env (opens w) output_filename then []
       else concat (zip_with replicate
                      (segment_results env (tmp_dir env)
                         (segment_files env audio_file) (calls w)).*1
                      (map (Py.path_join (tmp_dir env))
                         (segment_files env audio_file)))).
Proof.
  destruct (open_fails env (opens w) output_filename) eqn:Hh.
  - rewrite process_audio_file_header_failed by done.
    eexists _, _. split; [reflexivity|]. split; [reflexivity|].
    unfold header_failed. cbn [calls scratch unique_tracks].
    split_and!; try done.
    + apply started_processing_msg.
    + unfold processing_msg. by destruct (2 <? total_files).
    + unfold processing_msg. destruct (2 <? total_files); apply sublist_nil_l.
    + unfold processing_msg. by destruct (2 <? total_files).
  - destruct (process_audio_file_run env listdir_perm audio_file
                output_filename file_index total_files w Hh)
      as (w3 & Hrun & ->).
    destruct (segments_run_events _ _ _ _ _ _ _ Hrun)
      as (sevs & new & counts & Htr & _ & Hu & _ & _ & Hsub & _ & Htl & _).
    destruct (segments_run_observed _ _ _ _ _ _ _ Hrun)
      as (sevs' & Htr' & Hcalls & _ & _ & Hst & _ & Ha).
    rewrite Htr in Htr'. apply app_inv_head in Htr'. subst sevs'.
    destruct (segments_run_results _ _ _ _ _ _ _ Hrun)
      as (sevs' & Htr' & _ & Hreq).
    rewrite Htr in Htr'. apply app_inv_head in Htr'. subst sevs'.
    destruct (segments_run_unique_tracks _ _ _ _ _ _ _ Hrun [])
      as (sevs' & Htr' & Huniq & _); [done | done |].
    rewrite Htr in Htr'. apply app_inv_head in Htr'. subst sevs'.
    simpl in Hu, Huniq. subst new.
    rewrite enumerate_snd in Hreq. cbn [calls before_recognition] in Hreq.
    destruct (prologue_events_observed env audio_file output_filename
                file_index total_files) as (Hpa & Hpr & Hpt).
    destruct (epilogue_events_observed env audio_file output_filename w3)
      as (Hea & Her & Het).
    assert (Hreqs : requests
              (prologue_events env audio_file output_filename file_index
                 total_files ++ sevs
               ++ epilogue_events env audio_file output_filename w3)
              = requests sevs).
    { by rewrite !requests_app, Hpr, Her, app_nil_r. }
    eexists _, _. split; [reflexivity|].
    split.
    { cbn [trace after_recognition]. rewrite Htr.
      cbn [trace before_recognition]. rewrite <- !app_assoc. reflexivity. }
    rewrite Hreqs.
    rewrite !progress_app, prologue_events_progress, epilogue_events_progress,
      app_nil_r.
    cbn [unique_tracks after_recognition app].
    split_and!.
    + cbn [calls after_recognition]. rewrite Hcalls. reflexivity.
    + reflexivity.
    + reflexivity.
    + by rewrite !started_app, started_prologue, Hst, started_epilogue.
    + exact Huniq.
    + rewrite !appends_app, Hpa, Hea. unfold file_section.
      apply sublist_app; [done|]. apply sublist_app; [done|].
      destruct (open_fails env (opens w3) output_filename);
        [apply sublist_nil_l | done].
    + rewrite !appends_app, Hpa, Hea.
      apply Forall_app. split; [by repeat constructor|].
      apply Forall_app. split; [done|].
      destruct (open_fails env (opens w3) output_filename);
        by repeat constructor.
    + by rewrite !tracklist_app, Hpt, Het, Htl.
    + exact Hreq.
Qed.

(** X10: the cost of a file in requests to the recognition service,
    for writes that fail with [OSError] only.  When the header is
    written, [process_audio_file] asks for every file that the exports
    have left in the temporary directory, in the order of the indices,
    a file left empty by a failed export included; for each of them it
    makes the one to three requests that the answers of the service
    determine; the temporary directory is empty afterwards.  When the
    header is not written it asks nothing.  The requests of the trace
    are what the service sees. *)
Theorem process_audio_file_request_bound (audio_file output_filename : string)
    (file_index total_files : Z) (w : World) :
  let files := segment_files env audio_file in
  let counts := (segment_results env (tmp_dir env) files (calls w)).*1 in
  (forall (audio : AudioSegment) (idx : Z),
      from_file env audio_file = Some audio ->
      segment_file_name idx ∈ files <->
      (exists seg, (idx, seg) ∈ numbered_segments audio) /\
      (export_fails env idx = false \/ export_leaves_file env idx = true)) /\
  length counts = length files /\
  Forall (fun j => 0 < j <= 3)%nat counts /\
  exists (w' : World) (evs : list Event),
    process_audio_file env audio_file output_filename file_index total_files w
    = (Ok tt, w') /\
    trace w' = trace w ++ evs /\
    calls w' = (calls w + length (requests evs))%nat /\
    (open_fails env (opens w) output_filename = false ->
     requests evs
     = concat (zip_with replicate counts
                 (map (Py.path_join (tmp_dir env)) files)) /\
     (length files <= length (requests evs) <= 3 * length files)%nat /\
     scratch w' = []) /\
    (open_fails env (opens w) output_filename = true ->
     requests evs = [] /\ scratch w' = scratch w).
Proof.
  intros files counts.
  destruct (segment_results_counts (tmp_dir env) files (calls w))
    as [Hlen Hcnt]. fold counts in Hlen, Hcnt.
  split; [intros audio idx Hdec; by apply segment_files_elem|].
  split; [exact Hlen|]. split; [exact Hcnt|].
  destruct (process_audio_file_observed audio_file output_filename file_index
              total_files w)
    as (w' & evs & H1 & H2 & H3 & H4 & _ & _ & _ & _ & _ & _ & H5).
  fold files counts in H5.
  exists w', evs. split_and!; try done.
  - intros Hh. rewrite Hh in H4, H5. split_and!; [done | | | done].
    + pose proof (requests_length_bounds counts
                    (map (Py.path_join (tmp_dir env)) files)) as Hb.
      rewrite length_map, <- H5 in Hb. apply Hb; done.
    + pose proof (requests_length_bounds counts
                    (map (Py.path_join (tmp_dir env)) files)) as Hb.
      rewrite length_map, <- H5 in Hb. apply Hb; done.
  - intros Hh. rewrite Hh in H4, H5. done.
Qed.

(** The driver loop over numbered files. *)
Lemma process_each_observed (files : list (Z * string))
    (output_filename : string) (total_files : Z) (w : World) :
  exists (w' : World) (blocks : list (list Event)),
    process_each env files output_filename total_files w = (Ok tt, w') /\
    trace w' = trace w ++ concat blocks /\
    Forall2 (fun p block =>
               file_block output_filename total_files
                 (Py.path_join DOWNLOADS_DIR p.2) p.1 block)
      files blocks /\
    started (concat blocks)
    = map (fun p => processing_msg (Py.path_join DOWNLOADS_DIR p.2) p.1
                      total_files) files /\
    Forall (fun p => p.1 = output_filename) (appends (concat blocks)).
Proof.
  revert w. induction files as [|[idx file_name] rest IH]; intros w.
  - exists w, []. simpl. rewrite app_nil_r. split_and!; try done.
  - destruct (process_audio_file_observed
                (Py.path_join DOWNLOADS_DIR file_name) output_filename idx
                total_files w)
      as (w1 & evs1 & H1 & Htr1 & _ & _ & Hhd & Hst1 & Hu1 & Hsub1 & Hall1
          & Htl1 & _).
    destruct (IH w1) as (w' & blocks & H' & Htr & Hblocks & Hst & Hall).
    exists w', (evs1 :: blocks).
    change (concat (evs1 :: blocks)) with (evs1 ++ concat blocks).
    split_and!.
    + simpl. by rewrite (bind_ok _ _ _ _ _ H1).
    + by rewrite Htr, Htr1, <- app_assoc.
    + constructor; [|done]. unfold file_block. cbn [fst snd].
      rewrite <- Hu1. done.
    + rewrite started_app, Hst1, Hst. reflexivity.
    + rewrite appends_app. by apply Forall_app.
Qed.

(** X11: for writes that fail with [OSError] only, the driver loop
    takes the files in the order of its list, once each, numbered from
    1, whatever happens to the files before, and it ends by reporting
    that all files were processed and where the results are, also when
    some file was given up. *)
Theorem process_mp3_files_order (mp3_files : list string)
    (output_filename : string) (w : World) :
  exists (w' : World) (evs : list Event),
    process_mp3_files env mp3_files output_filename w = (Ok tt, w') /\
    trace w' = trace w ++ evs ++ [LogInfo MsgAllProcessed;
                                  LogInfo (MsgResultsSaved output_filename)] /\
    started evs
    = map (fun p => processing_msg (Py.path_join DOWNLOADS_DIR p.2) p.1
                      (Z.of_nat (length mp3_files)))
        (Py.enumerate mp3_files 1) /\
    length (started evs) = length mp3_files.
Proof.
  unfold process_mp3_files.
  destruct (process_each_observed (Py.enumerate mp3_files 1) output_filename
              (Z.of_nat (length mp3_files)) w)
    as (w1 & blocks & H1 & Htr & _ & Hst & _).
  eexists _, (concat blocks). split_and!.
  - rewrite (bind_ok _ _ _ _ _ H1). reflexivity.
  - simpl. rewrite Htr, <- !app_assoc. reflexivity.
  - done.
  - by rewrite Hst, length_map, enumerate_length.
Qed.


End PipelineMore.

(** X10, at a recording of three segments whose second export fails
    after it has created its file, with a service that is down: the
    empty file is asked for like the two others, three times each. *)
Lemma process_audio_file_request_bound_witness :
  let env := {| urlparse := urlparse Demo.env_down;
                download := download Demo.env_down;
                recognize := recognize Demo.env_down;
                open_fails := open_fails Demo.env_down;
                from_file := from_file Demo.env_down;
                export_fails := fun idx => idx =? 2;
                export_leaves_file := fun _ => true;
                listdir := listdir Demo.env_down;
                tmp_dir := tmp_dir Demo.env_down |} in
  (forall names, listdir env names ≡ₚ names) /\
  exists (w' : World) (evs : list Event),
    process_audio_file env "downloads/set.mp3" "songs.txt" 1 1 Demo.w0
    = (Ok tt, w') /\
    trace w' = trace Demo.w0 ++ evs /\
    requests evs
    = replicate 3 "/tmp/shazam_0/1.mp3" ++ replicate 3 "/tmp/shazam_0/2.mp3"
      ++ replicate 3 "/tmp/shazam_0/3.mp3".
Proof.
  cbv zeta. split; [exact demo_listdir_perm|].
  match goal with
  | |- exists w' evs, process_audio_file ?env _ _ _ _ _ = _ /\ _ =>
      destruct (process_audio_file_request_bound env demo_listdir_perm
                  "downloads/set.mp3" "songs.txt" 1 1 Demo.w0)
        as (_ & _ & _ & w' & evs & H1 & H2 & _ & H3 & _)
  end.
  destruct (H3 eq_refl) as (H4 & _).
  exists w', evs. split; [exact H1|]. split; [exact H2|].
  rewrite H4. vm_compute. reflexivity.
Defined.

(** X11 and X12 at the sample collaborators. *)
Lemma process_mp3_files_order_witness :
  (forall names, listdir Demo.env_ab names ≡ₚ names) /\
  exists (w' : World) (evs : list Event),
    process_mp3_files Demo.env_ab ["a.mp3"; "b.mp3"; "c.mp3"] "songs.txt"
      Demo.w0 = (Ok tt, w') /\
    started evs = [MsgProcessingFileOf 1 3 "downloads/a.mp3";
                   MsgProcessingFileOf 2 3 "downloads/b.mp3";
                   MsgProcessingFileOf 3 3 "downloads/c.mp3"].
Proof.
  split; [exact demo_listdir_perm|].
  destruct (process_mp3_files_order Demo.env_ab demo_listdir_perm
              ["a.mp3"; "b.mp3"; "c.mp3"] "songs.txt" Demo.w0)
    as (w' & evs & H1 & _ & H3 & _).
  exists w', evs. split; [exact H1 | exact H3].
Defined.


(** ** The gate before a download *)

Section UrlGate.

Variable env : Collaborators.

Lemma provider_of_dispatch (h : string) :
  h ∈ ALLOWED_DOMAINS ->
  (Py.contains "soundcloud.com" h = true /\ provider_of h = SoundCloud) \/
  (Py.contains "soundcloud.com" h = false /\
   Py.contains "youtube.com" h || (h =? "youtu.be")%string = true /\
   provider_of h = YouTube).
Proof.
  unfold ALLOWED_DOMAINS. rewrite !elem_of_union, !elem_of_singleton.
  intros H. destruct_or!; subst h;
    first [ left; split; vm_compute; reflexivity
          | right; split; [|split]; vm_compute; reflexivity ].
Qed.

(** X13: [download_from_url] as a gate.  The first thing it does is to
    log that the download starts.  The URL passes exactly when its
    scheme is [http] or [https] and its host name is on the allowlist;
    it then goes to SoundCloud for the three [soundcloud.com] hosts and
    to YouTube for the four others, and the result is what that
    download gives (the [downloads] directory is taken as creatable).
    Any other URL raises [ValueError] before the download collaborator
    is reached: nothing is logged or fetched after the opening line. *)
Theorem download_from_url_gate (url : string) (w : World) :
  exists (r : Outcome (option string)) (w' : World) (rest : list Event),
    download_from_url env url w = (r, w') /\
    trace w' = trace w ++ LogInfo MsgStartingDownload :: rest /\
    ((scheme (urlparse env url) ∈ ["http"; "https"] /\
      exists h : string,
        hostname (urlparse env url) = Some h /\ h ∈ ALLOWED_DOMAINS /\
        validate_url env url = Ok url /\
        r = Ok (download env (provider_of h) url) /\
        rest = [LogInfo (detected (provider_of h));
                Download (provider_of h) url])
     \/
     (~ (scheme (urlparse env url) ∈ ["http"; "https"] /\
         exists h : string,
           hostname (urlparse env url) = Some h /\ h ∈ ALLOWED_DOMAINS) /\
      validate_url env url = Raise ValueError /\
      r = Raise ValueError /\ rest = [])).
Proof.
  unfold download_from_url, validate_url, bind, lift, log_info, emit; simpl.
  destruct (bool_decide_reflect
              (scheme (urlparse env url) ∈ ["http"; "https"])) as [Hs|Hs];
    simpl.
  2:{ eexists _, _, []. split; [reflexivity|]. split; [reflexivity|].
      right. split; [|done]. by intros [? _]. }
  destruct (hostname (urlparse env url)) as [h|] eqn:Hh.
  2:{ eexists _, _, []. split; [reflexivity|]. split; [reflexivity|].
      right. split; [|done]. by intros (_ & h & ? & _). }
  destruct (bool_decide_reflect (h ∈ ALLOWED_DOMAINS)) as [Hin|Hin]; simpl.
  2:{ eexists _, _, []. split; [reflexivity|]. split; [reflexivity|].
      right. split; [|done]. intros (_ & h' & [= <-] & ?). done. }
  destruct (provider_of_dispatch h Hin) as [[Hc Hp]|(Hc & Hy & Hp)].
  - rewrite Hc. eexists _, _, _. split; [reflexivity|].
    split; [simpl; by rewrite <- !app_assoc|].
    left. split; [done|]. exists h. rewrite Hp. done.
  - rewrite Hc, Hy. eexists _, _, _. split; [reflexivity|].
    split; [simpl; by rewrite <- !app_assoc|].
    left. split; [done|]. exists h. rewrite Hp. done.
Qed.

End UrlGate.

(** ** Clean-up of a directory *)

Section CleanupLoop.

Import Cleanup.

Variable makedirs_fails : string -> bool.
Variable realpath : string -> string.
Variable remove_fails : string -> bool.

Lemma remove_file_spec (real_dir extension : string) (e : DirEntry)
    (st : FsState) :
  remove_file remove_fails real_dir extension e st
  = {| entries := if removable remove_fails real_dir extension e
                  then filter (fun e' => name e' <> name e) (entries st)
                  else entries st;
       fs_trace := fs_trace st
                   ++ option_list (entry_event remove_fails real_dir extension e);
       file_count := file_count st
                     + (if removable remove_fails real_dir extension e
                        then 1 else 0) |}.
Proof.
  unfold remove_file, removable, entry_event. destruct st as [es tr c].
  destruct (endswith (name e) extension); simpl;
    [|by rewrite app_nil_r, Z.add_0_r].
  destruct (kind e); simpl; rewrite ?app_nil_r, ?Z.add_0_r; try done.
  destruct (remove_fails (Py.path_join real_dir (name e))); simpl;
    by rewrite ?Z.add_0_r.
Qed.

Lemma remove_each_spec (real_dir extension : string) (listing : list DirEntry)
    (st : FsState) :
  let gone := filter (fun e => removable remove_fails real_dir extension e = true)
                listing in
  let st' := remove_each remove_fails real_dir extension listing st in
  entries st' = filter (fun e' => ~ name e' ∈ name <$> gone) (entries st) /\
  fs_trace st' = fs_trace st
                 ++ omap (entry_event remove_fails real_dir extension) listing /\
  file_count st' = file_count st + Z.of_nat (length gone).
Proof.
  revert st. induction listing as [|e rest IH]; intros st; cbn zeta.
  - simpl. rewrite app_nil_r, Z.add_0_r. split_and!; try done.
    induction (entries st) as [|x l IHl]; [done|].
    rewrite filter_cons_True by apply not_elem_of_nil. by f_equal.
  - cbn [remove_each].
    destruct (IH (remove_file remove_fails real_dir extension e st))
      as (He & Ht & Hc).
    cbn zeta in He, Ht, Hc. rewrite He, Ht, Hc. clear IH He Ht Hc.
    rewrite remove_file_spec. cbn [entries fs_trace file_count].
    assert (Hev : omap (entry_event remove_fails real_dir extension) (e :: rest)
                  = option_list (entry_event remove_fails real_dir extension e)
                    ++ omap (entry_event remove_fails real_dir extension) rest).
    { cbn [omap list_omap].
      by destruct (entry_event remove_fails real_dir extension e). }
    rewrite Hev, <- app_assoc. clear Hev.
    destruct (removable remove_fails real_dir extension e) eqn:Hr.
    + rewrite (filter_cons_True _ e rest Hr). cbn [fmap list_fmap length].
      split_and!; [|done|lia].
      rewrite list_filter_filter. apply list_filter_iff.
      intros x. rewrite not_elem_of_cons. tauto.
    + rewrite (filter_cons_False _ e rest) by (rewrite Hr; done).
      split_and!; [done|done|lia].
Qed.

Lemma filter_ext_in {A} (P Q : A -> Prop) `{!forall x, Decision (P x)}
    `{!forall x, Decision (Q x)} (l : list A) :
  (forall x, x ∈ l -> P x <-> Q x) -> filter P l = filter Q l.
Proof.
  induction l as [|x l IH]; intros Hext; [done|].
  rewrite !filter_cons.
  assert (Hx : P x <-> Q x) by (apply Hext; left).
  rewrite IH by (intros y Hy; apply Hext; by right).
  destruct (decide (P x)), (decide (Q x)); tauto || done.
Qed.

Lemma filter_split_length {A} (P : A -> Prop) `{!forall x, Decision (P x)}
    (l : list A) :
  (length (filter P l) + length (filter (fun x => ~ P x) l))%nat = length l.
Proof.
  induction l as [|x l IH]; [done|].
  rewrite !filter_cons.
  destruct (decide (P x)), (decide (~ P x)); simpl; try tauto; lia.
Qed.

Lemma name_determines_entry (dir : list DirEntry) (e1 e2 : DirEntry) :
  NoDup (name <$> dir) -> e1 ∈ dir -> e2 ∈ dir -> name e1 = name e2 -> e1 = e2.
Proof.
  intros Hnd [i Hi]%list_elem_of_lookup [j Hj]%list_elem_of_lookup Hn.
  assert (i = j) as ->.
  { eapply (NoDup_lookup _ _ _ _ Hnd); rewrite list_lookup_fmap.
    - by rewrite Hi.
    - rewrite Hj. simpl. by rewrite Hn. }
  congruence.
Qed.

(** X14: [remove_files] on a directory whose names are distinct.  When
    the directory cannot be created it raises [OSError].  Otherwise the
    entries that are gone afterwards are exactly the regular files
    whose name ends with the extension and whose [os.remove] succeeded,
    and [file_count] is their number: a symbolic link, an entry that is
    neither link nor regular file, and a name with another ending all
    stay.  The loop visits every entry of the listing: a removal that
    fails is logged and the loop goes on, as does a link, which is
    logged as skipped. *)
Theorem remove_files_effect (directory extension : string)
    (dir : list DirEntry) :
  NoDup (name <$> dir) ->
  match remove_files makedirs_fails realpath remove_fails directory extension
          dir with
  | Raise e => makedirs_fails directory = true /\ e = OSError
  | Ok st =>
      let real_dir := realpath directory in
      makedirs_fails directory = false /\
      entries st
      = filter (fun e => ~ removable remove_fails real_dir extension e = true)
          dir /\
      fs_trace st = omap (entry_event remove_fails real_dir extension) dir /\
      (Z.of_nat (length (entries st)) + file_count st = Z.of_nat (length dir)) /\
      (forall e, e ∈ dir ->
                 kind e <> RegularFile \/ endswith (name e) extension = false ->
                 e ∈ entries st)
  end.
Proof.
  intros Hnd. unfold remove_files.
  destruct (makedirs_fails directory); [done|].
  destruct (remove_each_spec (realpath directory) extension dir
              {| entries := dir; fs_trace := []; file_count := 0 |})
    as (He & Ht & Hc).
  cbn zeta in He, Ht, Hc. cbn [entries fs_trace file_count] in He, Ht, Hc.
  cbn zeta.
  assert (He' : entries
                  (remove_each remove_fails (realpath directory) extension dir
                     {| entries := dir; fs_trace := []; file_count := 0 |})
                = filter (fun e => ~ removable remove_fails (realpath directory)
                                       extension e = true) dir).
  { rewrite He. apply filter_ext_in. intros x Hx.
    rewrite list_elem_of_fmap. split.
    - intros Hn Hr. apply Hn. exists x. split; [done|].
      apply list_elem_of_filter. done.
    - intros Hr (y & Hxy & [Hy Hyd]%list_elem_of_filter).
      apply Hr. by rewrite (name_determines_entry dir x y Hnd Hx Hyd Hxy). }
  split_and!; try done.
  - rewrite He', Hc.
    pose proof (filter_split_length
                  (fun e => removable remove_fails (realpath directory)
                              extension e = true) dir).
    lia.
  - intros e Hin Hk. rewrite He'. apply list_elem_of_filter.
    split; [|done]. unfold removable.
    destruct Hk as [Hk| ->]; [|done].
    destruct (kind e); [done| |]; rewrite andb_false_r; done.
Qed.

End CleanupLoop.

(** X14, at a directory with a link, a text file, a sub-directory and a
    file that cannot be removed: the two other [.mp3] files go. *)
Lemma remove_files_effect_witness :
  let remove_fails := fun p => (p =? "/srv/downloads/locked.mp3")%string in
  let realpath := fun d => ("/srv/" ++ d)%string in
  NoDup (Cleanup.name <$> Cleanup.sample_dir) /\
  exists st,
    Cleanup.remove_files (fun _ => false) realpath remove_fails "downloads"
      ".mp3" Cleanup.sample_dir = Ok st /\
    Cleanup.name <$> Cleanup.entries st
    = ["link.mp3"; "notes.txt"; "locked.mp3"; "album.mp3"] /\
    Cleanup.fs_trace st
    = [Cleanup.Remove "/srv/downloads/a.mp3";
       Cleanup.WarnSymlink "/srv/downloads/link.mp3";
       Cleanup.ErrorDeleting "/srv/downloads/locked.mp3";
       Cleanup.Remove "/srv/downloads/b.mp3"] /\
    Cleanup.file_count st = 2.
Proof.
  cbn zeta.
  assert (Hnd : NoDup (Cleanup.name <$> Cleanup.sample_dir)).
  { apply (bool_decide_unpack _). vm_compute. exact I. }
  split; [exact Hnd|].
  pose proof (remove_files_effect (fun _ => false)
                (fun d => ("/srv/" ++ d)%string)
                (fun p => (p =? "/srv/downloads/locked.mp3")%string)
                "downloads" ".mp3" Cleanup.sample_dir Hnd) as H.
  destruct (Cleanup.remove_files _ _ _ _ _ _) as [st|e] eqn:Hr.
  - exists st. split; [reflexivity|].
    destruct H as (_ & He & Ht & Hc & _).
    rewrite He in Hc. rewrite He, Ht. clear He Ht Hr.
    split; [vm_compute; reflexivity|].
    split; [vm_compute; reflexivity|].
    match type of Hc with
    | Z.of_nat ?a + _ = Z.of_nat ?b =>
        let a' := eval vm_compute in a in
        let b' := eval vm_compute in b in
        change a with a' in Hc; change b with b' in Hc
    end.
    lia.
  - destruct H as [H _]. discriminate H.
Defined.
